(** * depupdate: the dependency updater and its audit loop

    A shallow embedding of the command-line tool of [index.ts]: the
    JavaScript string primitives it relies on, the process runner, the
    command planner and the bounded audit loop, followed by the properties
    of the program that its specification states.

    Conventions of the embedding.
    - A JavaScript string is a [string] of the Standard Library: a sequence
      of characters with codes below 256.
    - A JavaScript number produced by [parseInt] is an exact integer of [Z];
      [None] stands for [NaN].  The program only compares such a number with
      [0], and rounding a nonzero integer to a double never gives [0].
    - Everything the program does to the outside (spawning a subprocess,
      writing a log line) is an [event]; a computation returns the events it
      emitted, in order, next to its outcome.  What a subprocess answers is
      given by an arbitrary [oracle]. *)

From Stdlib Require Import String Ascii List Bool Arith ZArith Lia.
From Stdlib Require Import DecimalString.
Import ListNotations.

Local Open Scope list_scope.
Local Open Scope string_scope.

(* ===================================================================== *)
(** ** JavaScript primitives used by the program *)
(* ===================================================================== *)

Module JS.

(** The character class [[0-9]]. *)
Definition is_digit (c : ascii) : bool :=
  let n := nat_of_ascii c in (48 <=? n)%nat && (n <=? 57)%nat.

(** [WhiteSpace] and [LineTerminator] of ECMAScript, among the characters
    with a code below 256: TAB, LF, VT, FF, CR, SP and NBSP. *)
Definition is_space (c : ascii) : bool :=
  let n := nat_of_ascii c in
  ((9 <=? n)%nat && (n <=? 13)%nat) || (n =? 32)%nat || (n =? 160)%nat.

(** [s.length === 0]. *)
Definition is_empty (s : string) : bool :=
  match s with
  | EmptyString => true
  | String _ _ => false
  end.

(** [String.prototype.trimStart]. *)
Fixpoint trimStart (s : string) : string :=
  match s with
  | EmptyString => EmptyString
  | String c s' => if is_space c then trimStart s' else s
  end.

(** [String.prototype.trimEnd]. *)
Fixpoint trimEnd (s : string) : string :=
  match s with
  | EmptyString => EmptyString
  | String c s' =>
      let r := trimEnd s' in
      if is_space c && is_empty r then EmptyString else String c r
  end.

(** [String.prototype.trim]. *)
Definition trim (s : string) : string := trimEnd (trimStart s).

(** [s.split(sep)] for a separator of one character: the pieces between the
    separators, the empty ones included; the empty string gives [[""]]. *)
Fixpoint split (sep : ascii) (s : string) : list string :=
  match s with
  | EmptyString => [EmptyString]
  | String c s' =>
      if Ascii.eqb c sep then EmptyString :: split sep s'
      else match split sep s' with
           | [] => [String c EmptyString]
           | piece :: pieces => String c piece :: pieces
           end
  end.

(** [Array.prototype.join]. *)
Fixpoint join (sep : string) (l : list string) : string :=
  match l with
  | [] => EmptyString
  | [x] => x
  | x :: rest => x ++ sep ++ join sep rest
  end.

(** [x || d] for [x] a string or [undefined]: the empty string and
    [undefined] are falsy. *)
Definition or_else (x : option string) (d : string) : string :=
  match x with
  | None => d
  | Some s => if is_empty s then d else s
  end.

(** [stdout.match(re)] for the regular expression [re] of the program, a
    starred digit class [0-9] in a group, with the flags [g] and [m]: with the
    [g] flag, the array of all the matches of the pattern, scanning from left
    to right.  At each position the
    pattern matches the longest run of digits starting there, which may be
    empty; after an empty match the scan moves one character forward.  The
    argument [run] is the run of digits being read.  The [m] flag plays no
    role, the pattern having no anchor. *)
Fixpoint match_digit_runs (run : string) (s : string) : list string :=
  match s with
  | EmptyString =>
      if is_empty run then [EmptyString] else [run; EmptyString]
  | String c s' =>
      if is_digit c then match_digit_runs (run ++ String c EmptyString) s'
      else if is_empty run then EmptyString :: match_digit_runs EmptyString s'
      else run :: EmptyString :: match_digit_runs EmptyString s'
  end.

(** [String.prototype.match] returns [null] when there is no match at all. *)
Definition match_digits (s : string) : option (list string) :=
  match match_digit_runs EmptyString s with
  | [] => None
  | ms => Some ms
  end.

(** The value of a digit in a radix up to 16. *)
Definition digit_of (c : ascii) : option Z :=
  let n := Z.of_nat (nat_of_ascii c) in
  if (48 <=? n)%Z && (n <=? 57)%Z then Some (n - 48)%Z
  else if (97 <=? n)%Z && (n <=? 102)%Z then Some (n - 87)%Z
  else if (65 <=? n)%Z && (n <=? 70)%Z then Some (n - 55)%Z
  else None.

(** The longest prefix of radix-[R] digits, read as a number; [acc] is
    [None] as long as no digit was read. *)
Fixpoint parse_digits (R : Z) (acc : option Z) (s : string) : option Z :=
  match s with
  | EmptyString => acc
  | String c s' =>
      match digit_of c with
      | Some d =>
          if (d <? R)%Z
          then parse_digits R
                 (Some (match acc with None => d | Some a => a * R + d end)%Z) s'
          else acc
      | None => acc
      end
  end.

(** [parseInt(s)] without a radix: leading white space is skipped, a sign
    is read, a [0x] or [0X] prefix selects radix 16, then the longest prefix
    of digits is read; [NaN] when there is none. *)
Definition parseInt (s : string) : option Z :=
  let s1 := trimStart s in
  let '(sign, s2) :=
    match s1 with
    | String "-" r => ((-1)%Z, r)
    | String "+" r => (1%Z, r)
    | _ => (1%Z, s1)
    end in
  let '(R, s3) :=
    match s2 with
    | String "0" (String "x" r) => (16%Z, r)
    | String "0" (String "X" r) => (16%Z, r)
    | _ => (10%Z, s2)
    end in
  option_map (Z.mul sign) (parse_digits R None s3).

(** [n !== 0] for a number [n]; [NaN !== 0] holds. *)
Definition neq_zero (n : option Z) : bool :=
  match n with
  | None => true
  | Some z => negb (z =? 0)%Z
  end.

(** [String.prototype.toLowerCase] on one character with a code below 256:
    the letters A to Z, and the Latin-1 capitals from 192 to 222 except the
    multiplication sign 215, move 32 places up. *)
Definition toLowerChar (c : ascii) : ascii :=
  let n := nat_of_ascii c in
  if ((65 <=? n)%nat && (n <=? 90)%nat)
     || ((192 <=? n)%nat && (n <=? 222)%nat && negb (n =? 215)%nat)
  then ascii_of_nat (n + 32) else c.

(** [String.prototype.toLowerCase]. *)
Fixpoint toLowerCase (s : string) : string :=
  match s with
  | EmptyString => EmptyString
  | String c rest => String (toLowerChar c) (toLowerCase rest)
  end.

(** [Array.prototype.includes] on an array of strings. *)
Fixpoint includes (l : list string) (x : string) : bool :=
  match l with
  | [] => false
  | y :: rest => String.eqb y x || includes rest x
  end.

End JS.

(* ===================================================================== *)
(** ** Pure helpers of the program *)
(* ===================================================================== *)

(** The number the audit output is read as:
    [parseInt(matcher[0] || '0')], when [matcher] is not [null]. *)
Definition parsed_count (matcher : list string) : option Z :=
  JS.parseInt (JS.or_else (nth_error matcher 0) "0").

Definition check_for_vulnerabilities (stdout : string) : bool :=
  match JS.match_digits stdout with
  | None => false
  | Some matcher => JS.neq_zero (parsed_count matcher)
  end.

Definition standardDevDependencies : list string :=
  [ "@types/mocha";
    "@types/node";
    "@typescript-eslint/eslint-plugin";
    "@typescript-eslint/parser";
    "eslint";
    "eslint-config-standard";
    "eslint-plugin-import";
    "eslint-plugin-n";
    "eslint-plugin-node";
    "eslint-plugin-promise";
    "mocha";
    "ts-node";
    "typedoc";
    "typescript" ].

Definition format_dep (dependencies : list string) (latest : bool) : string :=
  JS.join " "
    (if latest then map (fun dep => dep ++ "@latest") dependencies
     else dependencies).

(* ===================================================================== *)
(** ** Effects: subprocesses, log lines, process exit *)
(* ===================================================================== *)

(** The levels of the logging sink. *)
Inductive level : Type := LDebug | LInfo | LWarn | LError.

(** What [exec] hands to its callback: [stdout], [stderr] and the error,
    [None] standing for [null]. *)
Definition ExecutionResult : Type := (string * string * option string)%type.

Inductive event : Type :=
| Spawn (cmd : string)                                 (* [exec(cmd, ...)] *)
| Log (lvl : level) (fmt : string) (args : list string). (* [Logger.lvl(fmt, ...args)] *)

(** The outside world: what the subprocess spawned for a command line
    answers, given everything that happened before. *)
Definition oracle : Type := list event -> string -> ExecutionResult.

(** A computation either returns or ends the process with an exit code. *)
Inductive outcome (A : Type) : Type :=
| Returned (a : A)
| Exited (code : Z).
Arguments Returned {A} a.
Arguments Exited {A} code.

(** A computation reads the world and the events so far, and gives its
    outcome and the events it emitted. *)
Definition M (A : Type) : Type := oracle -> list event -> outcome A * list event.

Definition ret {A} (a : A) : M A := fun _ _ => (Returned a, []).

Definition bind {A B} (m : M A) (f : A -> M B) : M B :=
  fun w h =>
    match m w h with
    | (Returned a, es) =>
        let '(o, es') := f a w (h ++ es)%list in (o, (es ++ es')%list)
    | (Exited code, es) => (Exited code, es)
    end.

Declare Scope prog_scope.
Delimit Scope prog_scope with prog.
Notation "x <- m ;; k" := (bind m (fun x => k))
  (at level 61, m at next level, right associativity) : prog_scope.
Notation "' p <- m ;; k" := (bind m (fun p => k))
  (at level 61, p pattern, m at next level, right associativity) : prog_scope.
Notation "m ;; k" := (bind m (fun _ => k))
  (at level 61, right associativity) : prog_scope.
Local Open Scope prog_scope.

(** [child_process.exec(cmd, callback)], awaited. *)
Definition exec (cmd : string) : M ExecutionResult :=
  fun w h => (Returned (w h cmd), [Spawn cmd]).

Definition log (lvl : level) (fmt : string) (args : list string) : M unit :=
  fun _ _ => (Returned tt, [Log lvl fmt args]).

(** [process.exit(code)] does not return. *)
Definition process_exit {A} (code : Z) : M A :=
  fun _ _ => (Exited code, []).

(** [for (const x of l) body(x)], also [l.map(body)] run for its effects. *)
Fixpoint for_each {A} (l : list A) (body : A -> M unit) : M unit :=
  match l with
  | [] => ret tt
  | x :: l' => body x ;; for_each l' body
  end.

(** What the body of a loop asks for when it ends. *)
Inductive flow : Type := Continue | Break.

(** [n] iterations at most of [body], on [i], [i + 1], ... *)
Fixpoint iterate (n : nat) (i : nat) (body : nat -> M flow) : M unit :=
  match n with
  | O => ret tt
  | S n' =>
      f <- body i ;;
      match f with
      | Break => ret tt
      | Continue => iterate n' (S i) body
      end
  end.

(** [for (let i = lo; i < hi; ++i) body(i)], for a body that leaves [i]
    alone. *)
Definition for_range (lo hi : nat) (body : nat -> M flow) : M unit :=
  iterate (hi - lo) lo body.

Definition LF : ascii := "010"%char.
Definition TAB : ascii := "009"%char.

(* ===================================================================== *)
(** ** The process runner *)
(* ===================================================================== *)

Definition run (cmd : string) : M ExecutionResult :=
  '(stdout, stderr, error) <- exec cmd ;;
  for_each (JS.split LF stdout) (fun line => log LDebug line []) ;;
  ret (stdout, stderr, error).

(** [error] is an [Error] object or [null]: truthy exactly when present. *)
Definition truthy (error : option string) : bool :=
  match error with
  | Some _ => true
  | None => false
  end.

Definition runPrintErrors (cmd : string) : M ExecutionResult :=
  '(stdout, stderr, error) <- run cmd ;;
  (if truthy error || negb (String.length stderr =? 0)%nat
   then for_each
          (filter (fun line => negb (String.length (JS.trim line) =? 0)%nat)
                  (JS.split LF stderr))
          (fun line => log LError (JS.trim line) [])
   else ret tt) ;;
  ret (stdout, stderr, error).

(* ===================================================================== *)
(** ** The main program *)
(* ===================================================================== *)

(** The flags of a category, per package manager; a missing key is
    [None]. *)
Record Flags : Type := mkFlags {
  yarn : option string;
  npm : option string
}.

Record Category : Type := mkCategory {
  name : string;
  items : list string;
  flags : option Flags
}.

(** The manifest [package.json]: each of the four sub-mappings is absent or
    the list of its entries (name, version range), in the order in which
    [Object.keys] enumerates them. *)
Record Config : Type := mkConfig {
  cfg_dependencies : option (list (string * string));
  cfg_devDependencies : option (list (string * string));
  cfg_peerDependencies : option (list (string * string));
  cfg_optionalDependencies : option (list (string * string))
}.

(** [Object.keys(sub ?? [])]. *)
Definition keys_or_empty (sub : option (list (string * string))) : list string :=
  match sub with
  | None => []
  | Some entries => map fst entries
  end.

Definition dependencies (config : Config) : list Category :=
  [ mkCategory "dependencies"
      (keys_or_empty (cfg_dependencies config))
      (Some (mkFlags None (Some "--save")));
    mkCategory "development dependencies"
      (keys_or_empty (cfg_devDependencies config))
      (Some (mkFlags (Some "--dev") (Some "--save-dev")));
    mkCategory "peer dependencies"
      (keys_or_empty (cfg_peerDependencies config))
      (Some (mkFlags (Some "--peer") None));
    mkCategory "optional dependencies"
      (keys_or_empty (cfg_optionalDependencies config))
      (Some (mkFlags (Some "--optional") (Some "--save-optional"))) ].

(** What the program reads from its environment when it starts: the two
    lockfile probes, whether [latest] and [setup] are among the arguments
    (lower-cased and trimmed), the manifest as [require] loaded it, and
    [bin_dir]: the path
    [resolve(swd + "/../node_modules/.bin/yarn-audit-fix")] is a directory,
    up to and including the last path separator, followed by the file name
    [yarn-audit-fix]; [bin_dir] is that directory part. *)
Record Env : Type := mkEnv {
  is_yarn : bool;
  is_npm : bool;
  latest : bool;
  setup : bool;
  config : Config;
  bin_dir : string
}.

(** [category.flags?.yarn]. *)
Definition flags_yarn (c : Category) : option string :=
  match flags c with
  | Some f => yarn f
  | None => None
  end.

(** [category.flags?.npm]. *)
Definition flags_npm (c : Category) : option string :=
  match flags c with
  | Some f => npm f
  | None => None
  end.

(** The command line of the update loop for one category. *)
Definition command_line (e : Env) (cmd : string) (category : Category) : string :=
  let deps := format_dep (items category) (latest e) in
  cmd ++ " "
      ++ (if is_yarn e then JS.or_else (flags_yarn category) ""
          else JS.or_else (flags_npm category) "")
      ++ " " ++ deps.

(** The choice of [cmd] and the two fatal configurations. *)
Definition select_cmd (e : Env) : M string :=
  if is_npm e && is_yarn e then
    log LError "Cannot run while both yarn.lock and package-lock.json both exist..." [] ;;
    process_exit 1
  else if is_npm e then
    log LWarn "NPM detected..." [] ;;
    ret "npm install"
  else if is_yarn e then
    log LWarn "Yarn detected..." [] ;;
    ret (if negb (latest e) then "yarn upgrade" else "yarn add")
  else if negb (setup e) then
    log LError "Cannot detect package management system" [] ;;
    process_exit 1
  else ret "yarn".

(** The listing of what was found in the manifest. *)
Definition report_found (e : Env) : M unit :=
  for_each (dependencies (config e)) (fun category =>
    if negb (List.length (items category) =? 0)%nat then
      log LInfo "Found %s" [name category] ;;
      for_each (items category) (fun dependency =>
        log LInfo (String TAB (String TAB "%s")) [dependency])
    else ret tt).

Definition setup_tooling (e : Env) : M unit :=
  log LInfo "Setting up standard development dependencies..." [] ;;
  if is_npm e then
    run ("npm install --save --dev " ++ format_dep standardDevDependencies (latest e)) ;;
    ret tt
  else
    run ("yarn add --dev " ++ format_dep standardDevDependencies (latest e)) ;;
    ret tt.

Definition update_loop (e : Env) (cmd : string) : M unit :=
  for_each (dependencies (config e)) (fun category =>
    if (List.length (items category) =? 0)%nat then ret tt
    else
      let cl := command_line e cmd category in
      log LWarn cl [] ;;
      run cl ;;
      ret tt).

(** [i + 1] as [%s] prints it. *)
Definition show_nat (n : nat) : string :=
  NilZero.string_of_uint (Nat.to_uint n).

(** One turn of the audit loop. *)
Definition audit_attempt (e : Env) (i : nat) : M flow :=
  log LWarn "Running audit checks... attempt #%s" [show_nat (i + 1)] ;;
  run_fix <-
    (if is_npm e then
       '(out, _, _) <- runPrintErrors "npm audit" ;;
       ret (check_for_vulnerabilities out)
     else
       '(out, _, _) <- runPrintErrors "yarn audit" ;;
       ret (check_for_vulnerabilities out)) ;;
  if run_fix : bool then
    log LWarn "Attempting audit fixes..." [] ;;
    (if is_npm e then
       runPrintErrors "npm audit fix" ;; ret tt
     else
       let cmd := bin_dir e ++ "yarn-audit-fix" in
       runPrintErrors cmd ;; ret tt) ;;
    ret Continue
  else ret Break.

Definition audit_loop (e : Env) : M unit :=
  for_range 0 2 (audit_attempt e).

Definition main (e : Env) : M unit :=
  cmd <- select_cmd e ;;
  report_found e ;;
  if setup e then setup_tooling e
  else
    (if latest e then
       log LWarn "Set to update all dependencies to the latest version..." []
     else
       log LWarn "Set to update all dependencies to latest version within the rules in package.json..." []) ;;
    update_loop e cmd ;;
    audit_loop e.

(* ===================================================================== *)
(** ** Observing a run *)
(* ===================================================================== *)

(** The command lines spawned in a trace, in order. *)
Fixpoint spawned (tr : list event) : list string :=
  match tr with
  | [] => []
  | Spawn cmd :: tr' => cmd :: spawned tr'
  | Log _ _ _ :: tr' => spawned tr'
  end.

Definition level_eqb (a b : level) : bool :=
  match a, b with
  | LDebug, LDebug | LInfo, LInfo | LWarn, LWarn | LError, LError => true
  | _, _ => false
  end.

(** The lines logged at a level in a trace, in order. *)
Fixpoint logged (lvl : level) (tr : list event) : list string :=
  match tr with
  | [] => []
  | Spawn _ :: tr' => logged lvl tr'
  | Log l fmt _ :: tr' =>
      if level_eqb l lvl then fmt :: logged lvl tr' else logged lvl tr'
  end.

(** The audit and the audit-fix command lines of the audit loop. *)
Definition audit_cmd (e : Env) : string :=
  if is_npm e then "npm audit" else "yarn audit".

Definition fix_cmd (e : Env) : string :=
  if is_npm e then "npm audit fix" else bin_dir e ++ "yarn-audit-fix".

(** [is_audit cmd]: the command line is one of the two audit commands. *)
Definition is_audit (cmd : string) : bool :=
  String.eqb cmd "npm audit" || String.eqb cmd "yarn audit".

Definition stdout_of (r : ExecutionResult) : string := fst (fst r).
Definition stderr_of (r : ExecutionResult) : string := snd (fst r).
Definition error_of (r : ExecutionResult) : option string := snd r.

(** What the audit of attempt [i + 1] answers, when the attempt starts
    after the events [h]. *)
Definition audit_answer (e : Env) (i : nat) (w : oracle) (h : list event)
  : ExecutionResult :=
  w (h ++ [Log LWarn "Running audit checks... attempt #%s" [show_nat (i + 1)]])%list
    (audit_cmd e).

(** A world in which every subprocess prints [out] and succeeds. *)
Definition always (out : string) : oracle := fun _ _ => (out, "", None).

Definition sample_config : Config :=
  mkConfig (Some [("a", "^1.0.0")]) None (Some [("p", "1"); ("q", "2")]) None.

Definition npm_env : Env := mkEnv false true false false sample_config "/x/".
Definition yarn_env : Env := mkEnv true false false false sample_config "/x/".

(* ===================================================================== *)
(** ** Vocabulary of the statements *)
(* ===================================================================== *)

(** The debug lines [run] writes for an output. *)
Definition debug_lines (stdout : string) : list event :=
  map (fun line => Log LDebug line []) (JS.split LF stdout).

(** The error lines [runPrintErrors] writes for a result. *)
Definition error_lines (r : ExecutionResult) : list event :=
  if truthy (error_of r) || negb (String.length (stderr_of r) =? 0)%nat
  then map (fun line => Log LError (JS.trim line) [])
           (filter (fun line => negb (String.length (JS.trim line) =? 0)%nat)
                   (JS.split LF (stderr_of r)))
  else [].

(** A computation that returns after writing log lines only. *)
Definition quiet (m : M unit) : Prop :=
  forall w h, exists es, m w h = (Returned tt, es) /\ spawned es = [].

(** A category for which the update loop runs a command. *)
Definition has_items (c : Category) : bool :=
  negb (List.length (items c) =? 0)%nat.

(** The events of the audit of attempt [i + 1]. *)
Definition audit_events (e : Env) (i : nat) (w : oracle) (h : list event)
  : list event :=
  Log LWarn "Running audit checks... attempt #%s" [show_nat (i + 1)]
  :: Spawn (audit_cmd e)
  :: (debug_lines (stdout_of (audit_answer e i w h))
      ++ error_lines (audit_answer e i w h))%list.

(** The events of an audit fix started after the events [h]. *)
Definition fix_events (e : Env) (w : oracle) (h : list event) : list event :=
  let r := w (h ++ [Log LWarn "Attempting audit fixes..." []])%list (fix_cmd e) in
  Log LWarn "Attempting audit fixes..." []
  :: Spawn (fix_cmd e)
  :: (debug_lines (stdout_of r) ++ error_lines r)%list.

(** The value of [cmd] the update loop uses when exactly one lockfile is
    there. *)
Definition base_verb (e : Env) : string :=
  if is_npm e then "npm install"
  else if negb (latest e) then "yarn upgrade" else "yarn add".

(** The number of audit invocations in a trace. *)
Definition audits (tr : list event) : nat :=
  List.length (filter is_audit (spawned tr)).

(** In the trace [tr] of a computation started after [h]: after an audit
    whose output reports no vulnerability, nothing more is spawned. *)
Definition clean_audit_stops (w : oracle) (h tr : list event) : Prop :=
  forall pre c post,
    tr = (pre ++ Spawn c :: post)%list ->
    is_audit c = true ->
    check_for_vulnerabilities (stdout_of (w (h ++ pre)%list c)) = false ->
    spawned post = [].

Definition both_env : Env := mkEnv true true false false sample_config "/x/".
Definition bare_env : Env := mkEnv false false true false sample_config "/x/".

(** A line made of white space only. *)
Fixpoint is_blank (line : string) : bool :=
  match line with
  | EmptyString => true
  | String c rest => JS.is_space c && is_blank rest
  end.

(** The lines of a text that are not blank. *)
Definition non_blank_lines (text : string) : list string :=
  filter (fun line => negb (is_blank line)) (JS.split LF text).

(** The leading run of digits of a text, possibly empty. *)
Fixpoint leading_digits (s : string) : string :=
  match s with
  | EmptyString => EmptyString
  | String c rest =>
      if JS.is_digit c then String c (leading_digits rest) else EmptyString
  end.

(** A run of decimal digits read as an integer, from the left; the empty
    run is read as [acc]. *)
Fixpoint decimal_from (acc : Z) (digits : string) : Z :=
  match digits with
  | EmptyString => acc
  | String c rest =>
      decimal_from (acc * 10 + (Z.of_nat (nat_of_ascii c) - 48))%Z rest
  end.

(** The count the specification describes: the leading run of digits read
    as an integer, zero when there is no digit. *)
Definition leading_count (stdout : string) : Z :=
  decimal_from 0 (leading_digits stdout).

Fixpoint all_digits (s : string) : bool :=
  match s with
  | EmptyString => true
  | String c rest => JS.is_digit c && all_digits rest
  end.

Definition SP : ascii := " "%char.

Fixpoint no_space (s : string) : bool :=
  match s with
  | EmptyString => true
  | String c rest => negb (Ascii.eqb c SP) && no_space rest
  end.

(** A package name: not empty, without a space. *)
Definition is_package_name (s : string) : bool :=
  negb (JS.is_empty s) && no_space s.

(** The arguments of a command string: its pieces between spaces that are
    not empty. *)
Definition arguments_of (command : string) : list string :=
  filter (fun piece => negb (JS.is_empty piece)) (JS.split SP command).

(** The package manager a run works with, as the specification names the
    kinds. *)
Inductive PackageManagerKind : Type := NoManager | Yarn | Npm.


(** The entry of a category's flag mapping for a kind. *)
Definition lookup_flag (k : PackageManagerKind) (c : Category) : option string :=
  match k with
  | Yarn => flags_yarn c
  | Npm => flags_npm c
  | NoManager => None
  end.

(** The flag of a category for a kind, the empty string when the mapping
    has no entry. *)
Definition category_flag (k : PackageManagerKind) (c : Category) : string :=
  match lookup_flag k c with
  | Some flag => flag
  | None => ""
  end.


Definition empty_config : Config := mkConfig None (Some []) None (Some []).
Definition peer_only : Config := mkConfig None None (Some [("x", "1.0.0")]) None.

(** [process.argv.map(e => e.toLowerCase().trim()).includes(word)]: how
    the program looks for [latest] and for [setup] among its arguments. *)
Definition arg_given (argv : list string) (word : string) : bool :=
  JS.includes (map (fun e => JS.trim (JS.toLowerCase e)) argv) word.

(** The environment of a run, from the two lockfile probes, the arguments
    of the process, the manifest and the directory of the audit-fix tool. *)
Definition start (yarn_lock package_lock : bool) (argv : list string)
           (manifest : Config) (bin : string) : Env :=
  mkEnv yarn_lock package_lock
        (arg_given argv "latest") (arg_given argv "setup") manifest bin.

(** The command line of setup mode. *)
Definition setup_command (e : Env) : string :=
  if is_npm e
  then "npm install --save --dev " ++ format_dep standardDevDependencies (latest e)
  else "yarn add --dev " ++ format_dep standardDevDependencies (latest e).

(** The format of the line that lists one dependency. *)
Definition item_format : string := String TAB (String TAB "%s").

(** The arguments of the lines logged at a level with a format, in order. *)
Fixpoint logged_args (lvl : level) (fmt : string) (tr : list event)
  : list (list string) :=
  match tr with
  | [] => []
  | Spawn _ :: tr' => logged_args lvl fmt tr'
  | Log l f args :: tr' =>
      if level_eqb l lvl && String.eqb f fmt
      then args :: logged_args lvl fmt tr' else logged_args lvl fmt tr'
  end.

(** The events [report_found] writes for one category. *)
Definition found_events (c : Category) : list event :=
  if has_items c
  then Log LInfo "Found %s" [name c]
       :: map (fun dependency => Log LInfo item_format [dependency]) (items c)
  else [].

(** The events of the update loop for one category, started after [h]. *)
Definition update_events (e : Env) (cmd : string) (w : oracle) (h : list event)
           (c : Category) : list event :=
  if has_items c
  then let cl := command_line e cmd c in
       Log LWarn cl []
       :: Spawn cl
       :: debug_lines (stdout_of (w (h ++ [Log LWarn cl []])%list cl))
  else [].

(** In the trace [tr], every spawn comes right after an event that [P]
    relates to its command line. *)
Definition preceded_by (P : string -> event -> Prop) (tr : list event) : Prop :=
  forall pre c post,
    tr = (pre ++ Spawn c :: post)%list ->
    exists pre' l, pre = (pre' ++ [l])%list /\ P c l.

(** The log line that announces a command line: the command line itself at
    warn level for an update, the attempt line for an audit, the fix line
    for an audit fix, the setup line in setup mode. *)
Definition announces (e : Env) (c : string) (l : event) : Prop :=
  l = Log LWarn c []
  \/ (c = audit_cmd e
      /\ exists n, l = Log LWarn "Running audit checks... attempt #%s" [n])
  \/ (c = fix_cmd e /\ l = Log LWarn "Attempting audit fixes..." [])
  \/ (c = setup_command e
      /\ l = Log LInfo "Setting up standard development dependencies..." []).

Definition first_char (s : string) : option ascii :=
  match s with
  | EmptyString => None
  | String c _ => Some c
  end.

Fixpoint last_char (s : string) : option ascii :=
  match s with
  | EmptyString => None
  | String c rest =>
      match last_char rest with
      | None => Some c
      | Some d => Some d
      end
  end.

(** A line that is not empty and neither starts nor ends with white
    space. *)
Definition is_trimmed (line : string) : bool :=
  match first_char line, last_char line with
  | Some a, Some b => negb (JS.is_space a) && negb (JS.is_space b)
  | _, _ => false
  end.

(** A run of characters with one that is not the digit zero. *)
Fixpoint has_nonzero (digits : string) : bool :=
  match digits with
  | EmptyString => false
  | String c rest => negb (Ascii.eqb c "0") || has_nonzero rest
  end.

Definition setup_env : Env := mkEnv false false true true sample_config "/x/".

Definition failing : oracle :=
  fun _ _ => ("", String LF "  ", Some "spawn failed").

(* ===================================================================== *)
(** ** Sample runs *)
(* ===================================================================== *)

Example run_npm :
  spawned (snd (main npm_env (always "3 vulnerabilities found") [])) =
  ["npm install --save a"; "npm install  p q"; "npm audit";
   "npm audit fix"; "npm audit"; "npm audit fix"].
Proof. reflexivity. Qed.

Example run_yarn :
  spawned (snd (main yarn_env (always "0 vulnerabilities found") [])) =
  ["yarn upgrade  a"; "yarn upgrade --peer p q"; "yarn audit"].
Proof. reflexivity. Qed.

(* ===================================================================== *)
(** ** Traces of the building blocks *)
(* ===================================================================== *)

Lemma spawned_app (a b : list event) :
  spawned (a ++ b) = (spawned a ++ spawned b)%list.
Proof.
  induction a as [|[cmd|lvl fmt args] a IH]; simpl; auto.
  now rewrite IH.
Qed.

Lemma logged_app (lvl : level) (a b : list event) :
  logged lvl (a ++ b) = (logged lvl a ++ logged lvl b)%list.
Proof.
  induction a as [|[cmd|l fmt args] a IH]; simpl; auto.
  destruct (level_eqb l lvl); simpl; now rewrite IH.
Qed.

Lemma spawned_logs {A} (lvl : level) (f : A -> string) (g : A -> list string) (l : list A) :
  spawned (map (fun x => Log lvl (f x) (g x)) l) = [].
Proof. induction l; simpl; auto. Qed.

Lemma bind_returned {A B} (m : M A) (f : A -> M B) w h a es :
  m w h = (Returned a, es) ->
  bind m f w h = (fst (f a w (h ++ es)%list), (es ++ snd (f a w (h ++ es)%list))%list).
Proof.
  intros Hm. unfold bind. rewrite Hm.
  now destruct (f a w (h ++ es)%list).
Qed.

Lemma bind_then {A B} (m : M A) (f : A -> M B) w h a es o es' :
  m w h = (Returned a, es) ->
  f a w (h ++ es)%list = (o, es') ->
  bind m f w h = (o, (es ++ es')%list).
Proof. intros Hm Hf. unfold bind. now rewrite Hm, Hf. Qed.

Lemma bind_exited {A B} (m : M A) (f : A -> M B) w h code es :
  m w h = (Exited code, es) -> bind m f w h = (Exited code, es).
Proof. intros Hm. unfold bind. now rewrite Hm. Qed.

Lemma for_each_log {A} (lvl : level) (f : A -> string) (g : A -> list string)
      (l : list A) w h :
  for_each l (fun x => log lvl (f x) (g x)) w h =
  (Returned tt, map (fun x => Log lvl (f x) (g x)) l).
Proof.
  revert h. induction l as [|x l IH]; intros h; simpl; auto.
  unfold bind at 1. simpl. now rewrite IH.
Qed.

Lemma run_trace (cmd : string) w h :
  run cmd w h = (Returned (w h cmd), Spawn cmd :: debug_lines (stdout_of (w h cmd))).
Proof.
  unfold run, bind, exec, stdout_of, debug_lines.
  destruct (w h cmd) as [[out err] er]. simpl.
  rewrite (for_each_log LDebug (fun line => line) (fun _ => [])). simpl.
  now rewrite app_nil_r.
Qed.

Lemma runPrintErrors_trace (cmd : string) w h :
  runPrintErrors cmd w h =
  (Returned (w h cmd),
   Spawn cmd :: (debug_lines (stdout_of (w h cmd)) ++ error_lines (w h cmd))%list).
Proof.
  unfold runPrintErrors.
  rewrite (bind_returned _ _ _ _ _ _ (run_trace cmd w h)).
  unfold error_lines, error_of, stderr_of.
  destruct (w h cmd) as [[out err] er]. cbn [fst snd].
  destruct (truthy er || negb (String.length err =? 0)%nat).
  - unfold bind.
    rewrite (for_each_log LError (fun line => JS.trim line) (fun _ => [])).
    simpl. now rewrite app_nil_r.
  - simpl. now rewrite app_nil_r.
Qed.

Lemma spawned_debug_lines out : spawned (debug_lines out) = [].
Proof. apply spawned_logs. Qed.

Lemma spawned_error_lines r : spawned (error_lines r) = [].
Proof.
  unfold error_lines. destruct (_ || _); auto.
  apply (spawned_logs LError (fun line => JS.trim line) (fun _ => [])).
Qed.

Lemma quiet_log lvl fmt args : quiet (log lvl fmt args).
Proof. intros w h. now exists [Log lvl fmt args]. Qed.

Lemma quiet_ret : quiet (ret tt).
Proof. intros w h. now exists []. Qed.

Lemma quiet_bind (m : M unit) (k : M unit) :
  quiet m -> quiet k -> quiet (m ;; k).
Proof.
  intros Hm Hk w h.
  destruct (Hm w h) as (es & Em & Sm).
  destruct (Hk w (h ++ es)%list) as (es' & Ek & Sk).
  exists (es ++ es')%list. split.
  - exact (bind_then _ _ _ _ _ _ _ _ Em Ek).
  - now rewrite spawned_app, Sm, Sk.
Qed.

Lemma quiet_for_each {A} (l : list A) (body : A -> M unit) :
  (forall x, quiet (body x)) -> quiet (for_each l body).
Proof.
  intros Hb. induction l as [|x l IH]; simpl.
  - apply quiet_ret.
  - apply quiet_bind; auto.
Qed.

Lemma quiet_report_found (e : Env) : quiet (report_found e).
Proof.
  unfold report_found. apply quiet_for_each. intros c.
  destruct (negb _).
  - apply quiet_bind; [apply quiet_log|].
    apply quiet_for_each. intros d. apply quiet_log.
  - apply quiet_ret.
Qed.

Lemma update_over_trace (e : Env) (cmd : string) (l : list Category) w h :
  exists es,
    for_each l (fun category =>
      if (List.length (items category) =? 0)%nat then ret tt
      else
        let cl := command_line e cmd category in
        log LWarn cl [] ;; run cl ;; ret tt) w h = (Returned tt, es)
    /\ spawned es = map (command_line e cmd) (filter has_items l).
Proof.
  revert h. induction l as [|c l IH]; intros h.
  - now exists [].
  - cbn [for_each filter]. unfold has_items at 1.
    destruct (List.length (items c) =? 0)%nat eqn:E; cbn [negb].
    + destruct (IH (h ++ [])%list) as (es & Ees & Ses).
      exists es. split; auto.
      exact (bind_then (ret tt) _ w h tt [] _ _ eq_refl Ees).
    + set (cl := command_line e cmd c).
      set (first := (Log LWarn cl []
                      :: Spawn cl
                      :: debug_lines (stdout_of (w (h ++ [Log LWarn cl []])%list cl)))).
      assert (Hfirst : (log LWarn cl [] ;; run cl ;; ret tt) w h = (Returned tt, first)).
      { unfold bind, log. rewrite run_trace. cbn.
        now rewrite app_nil_r. }
      destruct (IH (h ++ first)%list) as (es & Ees & Ses).
      exists (first ++ es)%list. split.
      * exact (bind_then _ _ w h tt first _ _ Hfirst Ees).
      * rewrite spawned_app, Ses. unfold first. cbn [spawned app map].
        now rewrite spawned_debug_lines.
Qed.

Lemma update_loop_trace (e : Env) (cmd : string) w h :
  exists es,
    update_loop e cmd w h = (Returned tt, es)
    /\ spawned es =
       map (command_line e cmd) (filter has_items (dependencies (config e))).
Proof. apply update_over_trace. Qed.

Lemma audit_attempt_trace (e : Env) (i : nat) w h :
  audit_attempt e i w h =
  if check_for_vulnerabilities (stdout_of (audit_answer e i w h))
  then (Returned Continue,
        (audit_events e i w h ++ fix_events e w (h ++ audit_events e i w h))%list)
  else (Returned Break, audit_events e i w h).
Proof.
  unfold audit_attempt, audit_events, fix_events, audit_answer, audit_cmd, fix_cmd.
  destruct (is_npm e).
  - unfold bind, log, ret. rewrite runPrintErrors_trace.
    set (r := w (h ++ [_])%list "npm audit").
    destruct r as [[out err] er] eqn:Er. cbn [stdout_of fst snd app].
    destruct (check_for_vulnerabilities out).
    + rewrite runPrintErrors_trace. cbn [app]. rewrite !app_nil_r.
      repeat (rewrite <- ?app_assoc; cbn [app]). reflexivity.
    + cbn [app]. now rewrite !app_nil_r.
  - unfold bind, log, ret. rewrite runPrintErrors_trace.
    set (r := w (h ++ [_])%list "yarn audit").
    destruct r as [[out err] er] eqn:Er. cbn [stdout_of fst snd app].
    destruct (check_for_vulnerabilities out).
    + rewrite runPrintErrors_trace. cbn [app]. rewrite !app_nil_r.
      repeat (rewrite <- ?app_assoc; cbn [app]). reflexivity.
    + cbn [app]. now rewrite !app_nil_r.
Qed.

Lemma select_cmd_trace (e : Env) w h :
  select_cmd e w h =
  if is_npm e && is_yarn e then
    (Exited 1,
     [Log LError "Cannot run while both yarn.lock and package-lock.json both exist..." []])
  else if is_npm e then
    (Returned "npm install", [Log LWarn "NPM detected..." []])
  else if is_yarn e then
    (Returned (if negb (latest e) then "yarn upgrade" else "yarn add"),
     [Log LWarn "Yarn detected..." []])
  else if negb (setup e) then
    (Exited 1, [Log LError "Cannot detect package management system" []])
  else (Returned "yarn", []).
Proof.
  unfold select_cmd.
  destruct (is_npm e), (is_yarn e), (setup e); reflexivity.
Qed.

Lemma audit_loop_trace (e : Env) w h :
  audit_loop e w h =
  (Returned tt,
   (snd (audit_attempt e 0 w h)
    ++ (if check_for_vulnerabilities (stdout_of (audit_answer e 0 w h))
        then snd (audit_attempt e 1 w (h ++ snd (audit_attempt e 0 w h)))
        else []))%list).
Proof.
  unfold audit_loop, for_range. cbn [Nat.sub iterate].
  unfold bind at 1. rewrite (audit_attempt_trace e 0 w h).
  destruct (check_for_vulnerabilities (stdout_of (audit_answer e 0 w h))).
  - cbn [fst snd]. unfold bind at 1.
    set (h1 := (h ++ _)%list).
    rewrite (audit_attempt_trace e 1 w h1).
    destruct (check_for_vulnerabilities (stdout_of (audit_answer e 1 w h1)));
      cbn [fst snd ret]; now rewrite app_nil_r.
  - cbn [fst snd ret]. reflexivity.
Qed.

(** The spawns of one attempt: the audit, then the fix when the audit
    reported something. *)
Lemma spawned_audit_attempt (e : Env) (i : nat) w h :
  spawned (snd (audit_attempt e i w h)) =
  if check_for_vulnerabilities (stdout_of (audit_answer e i w h))
  then [audit_cmd e; fix_cmd e] else [audit_cmd e].
Proof.
  rewrite audit_attempt_trace.
  destruct (check_for_vulnerabilities _); cbn [snd].
  - unfold audit_events, fix_events. cbn [app spawned].
    rewrite !spawned_app. cbn [spawned].
    rewrite !spawned_app, !spawned_debug_lines, !spawned_error_lines.
    reflexivity.
  - unfold audit_events. cbn [spawned].
    rewrite spawned_app, spawned_debug_lines, spawned_error_lines.
    reflexivity.
Qed.

Lemma outcome_audit_attempt (e : Env) (i : nat) w h :
  fst (audit_attempt e i w h) =
  Returned (if check_for_vulnerabilities (stdout_of (audit_answer e i w h))
            then Continue else Break).
Proof.
  rewrite audit_attempt_trace. now destruct (check_for_vulnerabilities _).
Qed.

Lemma audit_loop_returns (e : Env) w h :
  audit_loop e w h = (Returned tt, snd (audit_loop e w h)).
Proof. now rewrite audit_loop_trace. Qed.

(** In update mode with exactly one lockfile, the run is: log lines, the
    update loop, the audit loop. *)
Lemma main_update_trace (e : Env) w h :
  setup e = false ->
  xorb (is_npm e) (is_yarn e) = true ->
  exists pre upd,
    main e w h =
      (Returned tt, (pre ++ upd ++ snd (audit_loop e w (h ++ pre ++ upd)))%list)
    /\ spawned pre = []
    /\ spawned upd =
       map (command_line e (base_verb e)) (filter has_items (dependencies (config e))).
Proof.
  intros Hsetup Hone.
  assert (Hsel : exists l, select_cmd e w h = (Returned (base_verb e), [l])
                           /\ spawned [l] = []).
  { rewrite select_cmd_trace. unfold base_verb.
    destruct (is_npm e), (is_yarn e); try discriminate; cbn [andb];
      eexists; split; reflexivity. }
  destruct Hsel as (l & Hsel & Sl).
  destruct (quiet_report_found e w (h ++ [l])%list) as (found & Hfound & Sfound).
  set (note := Log LWarn
                 (if latest e
                  then "Set to update all dependencies to the latest version..."
                  else "Set to update all dependencies to latest version within the rules in package.json...")
                 []).
  set (pre := (l :: found ++ [note])%list).
  destruct (update_loop_trace e (base_verb e) w (h ++ pre)%list) as (upd & Hupd & Supd).
  exists pre, upd. split; [|split]; auto.
  - unfold main. rewrite Hsetup.
    replace (pre ++ upd ++ snd (audit_loop e w (h ++ pre ++ upd)))%list
      with ([l] ++ found ++ [note] ++ upd
              ++ snd (audit_loop e w (h ++ pre ++ upd)))%list
      by (unfold pre; cbn [app]; now rewrite <- !app_assoc).
    eapply (bind_then _ _ w h _ [l] _ _ Hsel).
    eapply (bind_then _ _ w _ _ found _ _ Hfound).
    eapply (bind_then _ _ w _ tt [note]).
    + unfold note. now destruct (latest e).
    + eapply (bind_then _ _ w _ _ upd).
      * replace (((h ++ [l]) ++ found) ++ [note])%list with (h ++ pre)%list;
          [exact Hupd|].
        unfold pre. cbn [app]. now rewrite <- !app_assoc.
      * replace ((((h ++ [l]) ++ found) ++ [note]) ++ upd)%list
          with (h ++ pre ++ upd)%list.
        -- apply audit_loop_returns.
        -- unfold pre. cbn [app]. now rewrite <- !app_assoc.
  - change pre with ([l] ++ found ++ [note])%list.
    now rewrite !spawned_app, Sl, Sfound.
Qed.

(* ===================================================================== *)
(** ** Which command lines are audits *)
(* ===================================================================== *)

Lemma length_append (a b : string) :
  String.length (a ++ b) = String.length a + String.length b.
Proof. induction a as [|c a IH]; simpl; auto. Qed.

Lemma longer_not_eqb (d s t : string) :
  String.length t < String.length s -> String.eqb (d ++ s) t = false.
Proof.
  intros Hlen. apply String.eqb_neq. intros Heq.
  apply (f_equal String.length) in Heq. rewrite length_append in Heq. lia.
Qed.

Lemma fix_cmd_not_audit (e : Env) : is_audit (fix_cmd e) = false.
Proof.
  unfold fix_cmd, is_audit. destruct (is_npm e); [reflexivity|].
  rewrite !longer_not_eqb; simpl; auto; lia.
Qed.

Lemma audit_cmd_is_audit (e : Env) : is_audit (audit_cmd e) = true.
Proof. unfold audit_cmd. now destruct (is_npm e). Qed.

Lemma command_line_not_audit (e : Env) (c : Category) :
  is_audit (command_line e (base_verb e) c) = false.
Proof.
  unfold command_line, base_verb, is_audit.
  destruct (is_npm e); [reflexivity|].
  destruct (latest e); reflexivity.
Qed.

Lemma no_audit_among_updates (e : Env) (l : list Category) :
  filter is_audit (map (command_line e (base_verb e)) l) = [].
Proof.
  induction l as [|c l IH]; simpl; auto.
  now rewrite command_line_not_audit.
Qed.

(* ===================================================================== *)
(** ** An audit that reports nothing is the last subprocess *)
(* ===================================================================== *)

Lemma split_at_spawn (tr tr2 pre post : list event) (c : string) :
  (tr ++ tr2 = pre ++ Spawn c :: post)%list ->
  (exists mid, tr = pre ++ Spawn c :: mid /\ post = mid ++ tr2)%list
  \/ (exists pre', pre = tr ++ pre' /\ tr2 = pre' ++ Spawn c :: post)%list.
Proof.
  revert pre. induction tr as [|x tr IH]; intros pre Heq.
  - right. now exists pre.
  - destruct pre as [|y pre]; simpl in Heq; injection Heq as Hx Hrest.
    + left. exists tr. now subst.
    + subst y. destruct (IH pre Hrest) as [(mid & -> & ->)|(pre' & -> & ->)].
      * left. now exists mid.
      * right. now exists pre'.
Qed.

Lemma stops_quiet w h tr : spawned tr = [] -> clean_audit_stops w h tr.
Proof.
  intros Hq pre c post -> _ _.
  rewrite spawned_app in Hq. simpl in Hq.
  now destruct (spawned pre).
Qed.

Lemma stops_after_no_audit w h tr tr2 :
  filter is_audit (spawned tr) = [] ->
  clean_audit_stops w (h ++ tr)%list tr2 ->
  clean_audit_stops w h (tr ++ tr2)%list.
Proof.
  intros Hno H2 pre c post Heq Haud Hchk.
  destruct (split_at_spawn _ _ _ _ _ Heq) as [(mid & -> & ->)|(pre' & -> & ->)].
  - rewrite spawned_app in Hno. simpl in Hno.
    rewrite filter_app in Hno. simpl in Hno. rewrite Haud in Hno.
    now destruct (filter is_audit (spawned pre)).
  - apply (H2 pre' c post eq_refl Haud). now rewrite <- app_assoc.
Qed.

Lemma stops_spawn w h (c0 : string) tr :
  (is_audit c0 = true ->
   check_for_vulnerabilities (stdout_of (w h c0)) = false -> spawned tr = []) ->
  clean_audit_stops w (h ++ [Spawn c0])%list tr ->
  clean_audit_stops w h (Spawn c0 :: tr).
Proof.
  intros Hhere Hrest pre c post Heq Haud Hchk.
  destruct pre as [|y pre]; simpl in Heq; injection Heq as Hc Hpost.
  - subst. rewrite app_nil_r in Hchk. auto.
  - subst. apply (Hrest pre c post eq_refl Haud).
    now rewrite <- app_assoc.
Qed.

Lemma stops_audit_attempt (e : Env) (i : nat) w h tr2 :
  (check_for_vulnerabilities (stdout_of (audit_answer e i w h)) = true ->
   clean_audit_stops w (h ++ snd (audit_attempt e i w h))%list tr2) ->
  (check_for_vulnerabilities (stdout_of (audit_answer e i w h)) = false ->
   tr2 = []) ->
  clean_audit_stops w h (snd (audit_attempt e i w h) ++ tr2)%list.
Proof.
  intros Hgo Hstop.
  pose proof (audit_attempt_trace e i w h) as Htr.
  set (note := Log LWarn "Running audit checks... attempt #%s" [show_nat (i + 1)]) in *.
  destruct (check_for_vulnerabilities (stdout_of (audit_answer e i w h))) eqn:Echk.
  - specialize (Hgo eq_refl). rewrite Htr in *. cbn [snd] in *.
    unfold audit_events. fold note.
    change (note :: Spawn (audit_cmd e) :: ?l)%list
      with ([note] ++ Spawn (audit_cmd e) :: l)%list.
    rewrite <- !app_assoc.
    apply stops_after_no_audit; [reflexivity|].
    cbn [app]. apply stops_spawn.
    + intros _ Hz. unfold audit_answer in Echk. fold note in Echk. congruence.
    + rewrite <- !app_assoc.
      apply stops_after_no_audit; [now rewrite spawned_debug_lines|].
      apply stops_after_no_audit; [now rewrite spawned_error_lines|].
      apply stops_after_no_audit.
      { unfold fix_events. cbn [spawned].
        rewrite spawned_app, spawned_debug_lines, spawned_error_lines.
        cbn [app filter]. now rewrite fix_cmd_not_audit. }
      unfold audit_events in Hgo. fold note in Hgo.
      repeat (rewrite <- ?app_assoc in *; cbn [app] in * ).
      exact Hgo.
  - rewrite (Hstop eq_refl), app_nil_r, Htr. cbn [snd].
    unfold audit_events. fold note.
    change (note :: Spawn (audit_cmd e) :: ?l)%list
      with ([note] ++ Spawn (audit_cmd e) :: l)%list.
    apply stops_after_no_audit; [reflexivity|].
    apply stops_spawn.
    + intros _ _. now rewrite spawned_app, spawned_debug_lines, spawned_error_lines.
    + apply stops_quiet.
      now rewrite spawned_app, spawned_debug_lines, spawned_error_lines.
Qed.

Lemma stops_audit_loop (e : Env) w h :
  clean_audit_stops w h (snd (audit_loop e w h)).
Proof.
  rewrite audit_loop_trace. cbn [snd].
  apply stops_audit_attempt.
  - intros ->.
    rewrite <- (app_nil_r (snd (audit_attempt e 1 w _))).
    apply stops_audit_attempt.
    + intros _. apply stops_quiet. reflexivity.
    + reflexivity.
  - now intros ->.
Qed.

(** The spawns of the whole audit loop, from what the two audits answer. *)
Lemma spawned_audit_loop (e : Env) w h :
  spawned (snd (audit_loop e w h)) =
  if check_for_vulnerabilities (stdout_of (audit_answer e 0 w h)) then
    if check_for_vulnerabilities
         (stdout_of (audit_answer e 1 w (h ++ snd (audit_attempt e 0 w h))%list))
    then [audit_cmd e; fix_cmd e; audit_cmd e; fix_cmd e]
    else [audit_cmd e; fix_cmd e; audit_cmd e]
  else [audit_cmd e].
Proof.
  rewrite audit_loop_trace. cbn [snd].
  rewrite spawned_app, spawned_audit_attempt.
  destruct (check_for_vulnerabilities (stdout_of (audit_answer e 0 w h))).
  - rewrite spawned_audit_attempt.
    now destruct (check_for_vulnerabilities _).
  - reflexivity.
Qed.

Lemma audits_audit_loop (e : Env) w h : audits (snd (audit_loop e w h)) <= 2.
Proof.
  unfold audits. rewrite spawned_audit_loop.
  repeat destruct (check_for_vulnerabilities _); cbn [filter];
    rewrite ?audit_cmd_is_audit, ?fix_cmd_not_audit; simpl; lia.
Qed.

(** The two fatal configurations end the run in [select_cmd]. *)
Lemma main_fatal (e : Env) w h :
  (is_npm e = true /\ is_yarn e = true)
  \/ (is_npm e = false /\ is_yarn e = false /\ setup e = false) ->
  exists msg, main e w h = (Exited 1, [Log LError msg []]).
Proof.
  intros Hcase. unfold main.
  pose proof (select_cmd_trace e w h) as Hsel.
  destruct Hcase as [[Hn Hy]|(Hn & Hy & Hs)]; rewrite Hn, Hy, ?Hs in Hsel;
    cbn [andb negb] in Hsel; eexists; exact (bind_exited _ _ _ _ _ _ Hsel).
Qed.

(* ===================================================================== *)
(** ** Properties of the audit loop *)
(* ===================================================================== *)

(** C1. In update mode a run performs at most two audit invocations,
    whatever the audits report, and so does the audit loop started after any
    events; and once an audit prints an output in which the vulnerability
    check finds nothing, no further subprocess is spawned: the loop stops
    without another audit attempt. *)
Theorem audit_loop_bounded (e : Env) (w : oracle) (h : list event) :
  setup e = false ->
  audits (snd (main e w h)) <= 2
  /\ audits (snd (audit_loop e w h)) <= 2
  /\ (forall pre c post,
        snd (main e w h) = (pre ++ Spawn c :: post)%list ->
        is_audit c = true ->
        check_for_vulnerabilities (stdout_of (w (h ++ pre)%list c)) = false ->
        spawned post = []).
Proof.
  intros Hsetup.
  assert (Hcases : (is_npm e = true /\ is_yarn e = true)
                   \/ (is_npm e = false /\ is_yarn e = false /\ setup e = false)
                   \/ xorb (is_npm e) (is_yarn e) = true).
  { destruct (is_npm e), (is_yarn e); auto. }
  split; [|split].
  - destruct Hcases as [Hf|[Hf|Hone]].
    + destruct (main_fatal e w h (or_introl Hf)) as (msg & ->). unfold audits. simpl. lia.
    + destruct (main_fatal e w h (or_intror Hf)) as (msg & ->). unfold audits. simpl. lia.
    + destruct (main_update_trace e w h Hsetup Hone) as (pre & upd & -> & Spre & Supd).
      cbn [snd]. unfold audits. rewrite !spawned_app, Spre, Supd. cbn [app].
      rewrite filter_app, no_audit_among_updates. cbn [app].
      apply audits_audit_loop.
  - apply audits_audit_loop.
  - change (clean_audit_stops w h (snd (main e w h))).
    destruct Hcases as [Hf|[Hf|Hone]].
    + destruct (main_fatal e w h (or_introl Hf)) as (msg & ->).
      now apply stops_quiet.
    + destruct (main_fatal e w h (or_intror Hf)) as (msg & ->).
      now apply stops_quiet.
    + destruct (main_update_trace e w h Hsetup Hone) as (pre & upd & -> & Spre & Supd).
      cbn [snd].
      apply stops_after_no_audit; [now rewrite Spre|].
      apply stops_after_no_audit; [rewrite Supd; apply no_audit_among_updates|].
      rewrite <- app_assoc. apply stops_audit_loop.
Qed.

Lemma audit_loop_bounded_witness :
  setup npm_env = false
  /\ audits (snd (main npm_env (always "3 vulnerabilities found") [])) <= 2
  /\ audits (snd (audit_loop npm_env (always "3 vulnerabilities found") [])) <= 2
  /\ (forall pre c post,
        snd (main npm_env (always "3 vulnerabilities found") [])
          = (pre ++ Spawn c :: post)%list ->
        is_audit c = true ->
        check_for_vulnerabilities
          (stdout_of (always "3 vulnerabilities found" ([] ++ pre)%list c)) = false ->
        spawned post = []).
Proof.
  split; [reflexivity|].
  apply (audit_loop_bounded npm_env (always "3 vulnerabilities found") []).
  reflexivity.
Defined.

(** C2, as the specification states it, fails: with an audit that keeps
    reporting three vulnerabilities, the second attempt (index 1) runs the
    fix command after its audit and asks to continue, so the loop spawns a
    fix after the second and last audit. *)
Lemma fix_runs_after_second_audit :
  fst (audit_attempt npm_env 1 (always "3 vulnerabilities found") [])
    = Returned Continue
  /\ spawned (snd (audit_attempt npm_env 1 (always "3 vulnerabilities found") []))
    = ["npm audit"; "npm audit fix"]
  /\ spawned (snd (audit_loop npm_env (always "3 vulnerabilities found") []))
    = ["npm audit"; "npm audit fix"; "npm audit"; "npm audit fix"]
  /\ ~ (forall e w h, spawned (snd (audit_attempt e 1 w h)) = [audit_cmd e]).
Proof.
  repeat split; try (vm_compute; reflexivity).
  intros H.
  specialize (H npm_env (always "3 vulnerabilities found") []).
  vm_compute in H. discriminate H.
Qed.

(** C2, amended. In each of the two attempts the fix command runs exactly
    when the audit of that attempt reports a nonzero count, the second
    attempt included; the loop is over after a zero count or after the second
    attempt, fix included.  The subprocesses of the loop are therefore one
    audit; or audit, fix, audit; or audit, fix, audit, fix. *)
Theorem fix_follows_each_nonzero_audit (e : Env) (w : oracle) (h : list event) :
  (forall i,
      spawned (snd (audit_attempt e i w h)) =
        (if check_for_vulnerabilities (stdout_of (audit_answer e i w h))
         then [audit_cmd e; fix_cmd e] else [audit_cmd e])
      /\ fst (audit_attempt e i w h) =
         Returned (if check_for_vulnerabilities (stdout_of (audit_answer e i w h))
                   then Continue else Break))
  /\ spawned (snd (audit_loop e w h)) =
     (if check_for_vulnerabilities (stdout_of (audit_answer e 0 w h)) then
        if check_for_vulnerabilities
             (stdout_of (audit_answer e 1 w (h ++ snd (audit_attempt e 0 w h))%list))
        then [audit_cmd e; fix_cmd e; audit_cmd e; fix_cmd e]
        else [audit_cmd e; fix_cmd e; audit_cmd e]
      else [audit_cmd e])
  /\ fst (audit_loop e w h) = Returned tt.
Proof.
  split; [|split].
  - intros i. split.
    + apply spawned_audit_attempt.
    + apply outcome_audit_attempt.
  - apply spawned_audit_loop.
  - now rewrite audit_loop_trace.
Qed.

(* ===================================================================== *)
(** ** Fatal configurations *)
(* ===================================================================== *)

(** C7. When both lockfiles are there, and when none is there and setup
    mode is not requested, the run ends with exit code 1 and has spawned no
    subprocess. *)
Theorem fatal_configuration_exits_first (e : Env) (w : oracle) (h : list event) :
  (is_npm e = true /\ is_yarn e = true)
  \/ (is_npm e = false /\ is_yarn e = false /\ setup e = false) ->
  fst (main e w h) = Exited 1 /\ spawned (snd (main e w h)) = [].
Proof.
  intros Hcase. destruct (main_fatal e w h Hcase) as (msg & ->). now split.
Qed.

Lemma fatal_configuration_exits_first_witness :
  (fst (main both_env (always "") []) = Exited 1
   /\ spawned (snd (main both_env (always "") [])) = [])
  /\ (fst (main bare_env (always "") []) = Exited 1
      /\ spawned (snd (main bare_env (always "") [])) = []).
Proof.
  split.
  - apply (fatal_configuration_exits_first both_env (always "") []).
    left. split; reflexivity.
  - apply (fatal_configuration_exits_first bare_env (always "") []).
    right. repeat split; reflexivity.
Defined.

(* ===================================================================== *)
(** ** The process runner *)
(* ===================================================================== *)

Lemma trim_blank (line : string) :
  (String.length (JS.trim line) =? 0)%nat = is_blank line.
Proof.
  unfold JS.trim. induction line as [|c rest IH]; [reflexivity|].
  cbn [JS.trimStart is_blank].
  destruct (JS.is_space c) eqn:Ec; cbn [andb]; auto.
  cbn [JS.trimEnd]. rewrite Ec. reflexivity.
Qed.

Lemma logged_logs {A} (lvl lvl' : level) (f : A -> string) (g : A -> list string)
      (l : list A) :
  logged lvl (map (fun x => Log lvl' (f x) (g x)) l) =
  if level_eqb lvl' lvl then map f l else [].
Proof.
  induction l as [|x l IH]; simpl.
  - now destruct (level_eqb lvl' lvl).
  - rewrite IH. now destruct (level_eqb lvl' lvl).
Qed.


Example runPrintErrors_failed :
  logged LError
    (snd (runPrintErrors "npm audit"
            (fun _ _ => ("", String LF " warn  a " ++ String LF "  ", Some "exit 1")) []))
  = ["warn  a"].
Proof. reflexivity. Qed.

(* ===================================================================== *)
(** ** The base verb *)
(* ===================================================================== *)

(** C6, as the specification states it, fails for npm: with the npm
    lockfile alone, the command chosen is [npm install] without [latest]
    exactly as with it; no upgrade verb is used and the verb does not depend
    on [latest]. *)
Lemma npm_verb_ignores_latest :
  fst (select_cmd (mkEnv false true false false sample_config "/x/") (always "") [])
    = Returned "npm install"
  /\ fst (select_cmd (mkEnv false true true false sample_config "/x/") (always "") [])
    = Returned "npm install".
Proof. split; reflexivity. Qed.

(** C6, amended. With the yarn lockfile alone the command is [yarn add]
    when [latest] is set and [yarn upgrade] otherwise; with the npm lockfile
    alone it is [npm install] whatever [latest] is. *)
Theorem base_verb_by_manager
        (latest_ setup_ : bool) (config_ : Config) (bin : string)
        (w : oracle) (h : list event) :
  fst (select_cmd (mkEnv true false latest_ setup_ config_ bin) w h)
    = Returned (if latest_ then "yarn add" else "yarn upgrade")
  /\ fst (select_cmd (mkEnv false true latest_ setup_ config_ bin) w h)
    = Returned "npm install".
Proof.
  rewrite !select_cmd_trace. cbn. now destruct latest_.
Qed.

(* ===================================================================== *)
(** ** Reading the vulnerability count *)
(* ===================================================================== *)

Lemma all_digits_leading (s : string) : all_digits (leading_digits s) = true.
Proof.
  induction s as [|c rest IH]; simpl; auto.
  destruct (JS.is_digit c) eqn:Ec; simpl; auto. now rewrite Ec.
Qed.

Lemma append_empty_r (s : string) : s ++ "" = s.
Proof. induction s; simpl; congruence. Qed.

Lemma append_assoc (a b c : string) : (a ++ b) ++ c = a ++ (b ++ c).
Proof. induction a; simpl; congruence. Qed.

Lemma first_match_is_leading_run (run s : string) :
  nth_error (JS.match_digit_runs run s) 0 = Some (run ++ leading_digits s).
Proof.
  revert run. induction s as [|c rest IH]; intros run.
  - simpl. rewrite append_empty_r. now destruct run.
  - cbn [JS.match_digit_runs leading_digits].
    destruct (JS.is_digit c).
    + rewrite IH, append_assoc. reflexivity.
    + rewrite append_empty_r. now destruct run.
Qed.

Lemma match_digits_some (s : string) :
  exists matcher,
    JS.match_digits s = Some matcher
    /\ nth_error matcher 0 = Some (leading_digits s).
Proof.
  unfold JS.match_digits.
  pose proof (first_match_is_leading_run "" s) as H.
  destruct (JS.match_digit_runs "" s) as [|m ms] eqn:E; [discriminate H|].
  exists (m :: ms). split; auto.
Qed.

Lemma digit_cases (c : ascii) :
  JS.is_digit c = true ->
  In c ["0"; "1"; "2"; "3"; "4"; "5"; "6"; "7"; "8"; "9"]%char.
Proof.
  destruct c as [[] [] [] [] [] [] [] []]; intros H;
    try discriminate H; simpl; tauto.
Qed.

Lemma parse_digits_all (a : Z) (s : string) :
  all_digits s = true ->
  JS.parse_digits 10 (Some a) s = Some (decimal_from a s).
Proof.
  revert a. induction s as [|c rest IH]; intros a Hall; [reflexivity|].
  cbn [all_digits] in Hall. apply andb_prop in Hall as [Hc Hrest].
  apply digit_cases in Hc. cbn [JS.parse_digits decimal_from].
  repeat (destruct Hc as [<-|Hc]; [apply (IH _ Hrest)|]).
  destruct Hc.
Qed.

(** [parseInt] on a run of digits that is not empty. *)
Lemma parseInt_digits (c : ascii) (rest : string) :
  all_digits (String c rest) = true ->
  JS.parseInt (String c rest) = Some (decimal_from 0 (String c rest)).
Proof.
  intros Hall. cbn [all_digits] in Hall. apply andb_prop in Hall as [Hc Hrest].
  apply digit_cases in Hc.
  destruct Hc as [<-|Hc].
  - (* a leading zero: the next character is a digit, not an x *)
    destruct rest as [|c2 rest2]; [reflexivity|].
    cbn [all_digits] in Hrest. apply andb_prop in Hrest as [Hc2 Hrest2].
    apply digit_cases in Hc2.
    unfold JS.parseInt.
    repeat (destruct Hc2 as [<-|Hc2];
            [simpl; rewrite (parse_digits_all _ _ Hrest2);
             simpl; destruct (decimal_from _ rest2); reflexivity|]).
    destruct Hc2.
  - unfold JS.parseInt.
    repeat (destruct Hc as [<-|Hc];
            [simpl; rewrite (parse_digits_all _ _ Hrest);
             simpl; destruct (decimal_from _ rest); reflexivity|]).
    destruct Hc.
Qed.

(** The program's count is the count of the specification. *)
Lemma parsed_count_leading (stdout : string) (matcher : list string) :
  nth_error matcher 0 = Some (leading_digits stdout) ->
  parsed_count matcher = Some (leading_count stdout).
Proof.
  intros H0. unfold parsed_count, leading_count. rewrite H0.
  pose proof (all_digits_leading stdout) as Hall.
  destruct (leading_digits stdout) as [|c rest]; [reflexivity|].
  cbn [JS.or_else JS.is_empty]. now apply parseInt_digits.
Qed.

Lemma check_is_nonzero_count (stdout : string) :
  check_for_vulnerabilities stdout = negb (leading_count stdout =? 0)%Z.
Proof.
  unfold check_for_vulnerabilities.
  destruct (match_digits_some stdout) as (matcher & -> & H0).
  now rewrite (parsed_count_leading _ _ H0).
Qed.



(** C10. An audit output whose first character is not a digit reports no
    vulnerability, whatever digits come later: the first match of the
    pattern is the empty string at position 0, the count is 0, the check
    answers false, and an attempt that reads such an output spawns the audit
    only and leaves the loop. *)
Theorem non_digit_start_reports_nothing
        (c : ascii) (rest : string) (e : Env) (i : nat) (w : oracle) (h : list event) :
  JS.is_digit c = false ->
  check_for_vulnerabilities (String c rest) = false
  /\ (exists matcher,
         JS.match_digits (String c rest) = Some matcher
         /\ nth_error matcher 0 = Some ""
         /\ parsed_count matcher = Some 0%Z)
  /\ (stdout_of (audit_answer e i w h) = String c rest ->
      spawned (snd (audit_attempt e i w h)) = [audit_cmd e]
      /\ fst (audit_attempt e i w h) = Returned Break).
Proof.
  intros Hc.
  assert (Hlead : leading_digits (String c rest) = "").
  { cbn [leading_digits]. now rewrite Hc. }
  assert (Hchk : check_for_vulnerabilities (String c rest) = false).
  { rewrite check_is_nonzero_count. unfold leading_count. now rewrite Hlead. }
  split; [exact Hchk|split].
  - destruct (match_digits_some (String c rest)) as (matcher & Hm & H0).
    exists matcher. rewrite <- Hlead at 1. repeat split; auto.
    rewrite (parsed_count_leading _ _ H0). unfold leading_count.
    now rewrite Hlead.
  - intros Hout.
    rewrite spawned_audit_attempt, outcome_audit_attempt, Hout, Hchk.
    now split.
Qed.

Lemma non_digit_start_reports_nothing_witness :
  JS.is_digit "f" = false
  /\ check_for_vulnerabilities "found 7 vulnerabilities" = false
  /\ spawned (snd (audit_attempt npm_env 0 (always "found 7 vulnerabilities") []))
     = ["npm audit"].
Proof.
  pose proof (non_digit_start_reports_nothing
                "f" "ound 7 vulnerabilities" npm_env 0
                (always "found 7 vulnerabilities") [] eq_refl) as (Hchk & _ & Hrun).
  split; [reflexivity|split; [exact Hchk|]].
  exact (proj1 (Hrun eq_refl)).
Defined.

(* ===================================================================== *)
(** ** Formatting the package names *)
(* ===================================================================== *)

Lemma split_no_space (a : string) :
  no_space a = true -> JS.split SP a = [a].
Proof.
  induction a as [|c a IH]; intros H; [reflexivity|].
  cbn [no_space] in H. apply andb_prop in H as [Hc Ha].
  cbn [JS.split]. apply negb_true_iff in Hc. rewrite Hc, (IH Ha). reflexivity.
Qed.

Lemma split_before_space (a b : string) :
  no_space a = true ->
  JS.split SP (a ++ String SP b) = a :: JS.split SP b.
Proof.
  induction a as [|c a IH]; intros H; [reflexivity|].
  cbn [no_space] in H. apply andb_prop in H as [Hc Ha].
  cbn [append JS.split]. apply negb_true_iff in Hc. rewrite Hc, (IH Ha).
  reflexivity.
Qed.

Lemma arguments_of_join (l : list string) :
  forallb is_package_name l = true ->
  arguments_of (JS.join " " l) = l.
Proof.
  unfold arguments_of.
  induction l as [|x l IH]; intros H; [reflexivity|].
  cbn [forallb] in H. apply andb_prop in H as [Hx Hl].
  unfold is_package_name in Hx. apply andb_prop in Hx as [Hne Hns].
  destruct l as [|y l].
  - cbn [JS.join]. rewrite (split_no_space _ Hns). cbn [filter].
    now rewrite Hne.
  - change (JS.join " " (x :: y :: l)) with (x ++ String SP (JS.join " " (y :: l))).
    rewrite (split_before_space _ _ Hns). cbn [filter]. rewrite Hne.
    now rewrite (IH Hl).
Qed.

Lemma no_space_append (a b : string) :
  no_space (a ++ b) = no_space a && no_space b.
Proof.
  induction a as [|c a IH]; [reflexivity|].
  cbn [append no_space]. now rewrite IH, andb_assoc.
Qed.

Lemma package_name_latest (d : string) :
  is_package_name d = true -> is_package_name (d ++ "@latest") = true.
Proof.
  unfold is_package_name. intros H. apply andb_prop in H as [Hne Hns].
  rewrite no_space_append, Hns. now destruct d.
Qed.

(** C9. For package names (not empty, without a space), the arguments of
    the string [format_dep] builds are the names in order, each followed by
    [@latest] when [latest] is set, and the names unchanged when it is
    not. *)
Theorem format_dep_latest_marker (deps : list string) :
  forallb is_package_name deps = true ->
  arguments_of (format_dep deps true) = map (fun dep => dep ++ "@latest") deps
  /\ arguments_of (format_dep deps false) = deps.
Proof.
  intros H. unfold format_dep. split.
  - apply arguments_of_join.
    rewrite forallb_forall in *. intros x Hx.
    apply in_map_iff in Hx as (d & <- & Hd).
    apply package_name_latest. auto.
  - now apply arguments_of_join.
Qed.

Lemma format_dep_latest_marker_witness :
  forallb is_package_name ["eslint"; "@types/node"] = true
  /\ arguments_of (format_dep ["eslint"; "@types/node"] true)
     = ["eslint@latest"; "@types/node@latest"]
  /\ arguments_of (format_dep ["eslint"; "@types/node"] false)
     = ["eslint"; "@types/node"].
Proof.
  split; [reflexivity|].
  apply (format_dep_latest_marker ["eslint"; "@types/node"]). reflexivity.
Defined.

(* ===================================================================== *)
(** ** The update commands *)
(* ===================================================================== *)






Example update_commands_npm :
  map (fun c => base_verb npm_env ++ " " ++ category_flag Npm c ++ " "
                  ++ format_dep (items c) (latest npm_env))
      (filter has_items (dependencies (config npm_env)))
  = ["npm install --save a"; "npm install  p q"].
Proof. reflexivity. Qed.




Example update_commands_peer_only :
  spawned (snd (main (mkEnv true false true false peer_only "/x/")
                     (always "0 vulnerabilities found") []))
  = ["yarn add --peer x@latest"; "yarn audit"].
Proof. reflexivity. Qed.

Example update_commands_none :
  spawned (snd (main (mkEnv true false true false empty_config "/x/")
                     (always "1 vulnerabilities found") []))
  = ["yarn audit"; "/x/yarn-audit-fix"; "yarn audit"; "/x/yarn-audit-fix"].
Proof. reflexivity. Qed.

(* ===================================================================== *)
(** ** Exact traces of the listing, of the update loop and of a run *)
(* ===================================================================== *)

Lemma found_body_trace (c : Category) w h :
  (if negb (List.length (items c) =? 0)%nat then
     log LInfo "Found %s" [name c] ;;
     for_each (items c) (fun dependency =>
       log LInfo (String TAB (String TAB "%s")) [dependency])
   else ret tt) w h = (Returned tt, found_events c).
Proof.
  unfold found_events, has_items, item_format.
  destruct (negb (List.length (items c) =? 0)%nat); [|reflexivity].
  eapply (bind_then _ _ w h tt [Log LInfo "Found %s" [name c]]); [reflexivity|].
  apply (for_each_log LInfo (fun _ => String TAB (String TAB "%s"))
                      (fun dependency => [dependency])).
Qed.

Lemma report_found_trace (e : Env) w h :
  report_found e w h =
  (Returned tt, flat_map found_events (dependencies (config e))).
Proof.
  unfold report_found. generalize (dependencies (config e)) as l.
  intros l. revert h. induction l as [|c l IH]; intros h; [reflexivity|].
  cbn [for_each flat_map].
  exact (bind_then _ _ w h tt _ _ _ (found_body_trace c w h) (IH _)).
Qed.

Lemma update_body_trace (e : Env) (cmd : string) (c : Category) w h :
  (if (List.length (items c) =? 0)%nat then ret tt
   else
     let cl := command_line e cmd c in
     log LWarn cl [] ;; run cl ;; ret tt) w h
  = (Returned tt, update_events e cmd w h c).
Proof.
  unfold update_events, has_items.
  destruct (List.length (items c) =? 0)%nat; cbn [negb]; [reflexivity|].
  unfold bind, log. rewrite run_trace. cbn. now rewrite app_nil_r.
Qed.

Lemma update_over_step (e : Env) (cmd : string) (c : Category)
      (l : list Category) w h :
  let body := fun category =>
    if (List.length (items category) =? 0)%nat then ret tt
    else
      let cl := command_line e cmd category in
      log LWarn cl [] ;; run cl ;; ret tt in
  for_each (c :: l) body w h =
  (Returned tt,
   (update_events e cmd w h c
      ++ snd (for_each l body w (h ++ update_events e cmd w h c)))%list).
Proof.
  intros body. cbn [for_each].
  destruct (update_over_trace e cmd l w (h ++ update_events e cmd w h c)%list)
    as (es & Hes & _).
  fold body in Hes.
  rewrite (bind_then _ _ w h tt _ _ _ (update_body_trace e cmd c w h) Hes).
  now rewrite Hes.
Qed.

Lemma update_loop_returns (e : Env) (cmd : string) w h :
  update_loop e cmd w h = (Returned tt, snd (update_loop e cmd w h)).
Proof.
  destruct (update_loop_trace e cmd w h) as (es & -> & _). reflexivity.
Qed.

(** The three ways a run goes: a fatal configuration, setup mode, update
    mode. *)
Lemma main_trace_cases (e : Env) w h :
  (((is_npm e = true /\ is_yarn e = true)
    \/ (is_npm e = false /\ is_yarn e = false /\ setup e = false))
   /\ exists msg, main e w h = (Exited 1, [Log LError msg []]))
  \/ (setup e = true /\ is_npm e && is_yarn e = false
      /\ exists pre,
          spawned pre = []
          /\ main e w h =
             (Returned tt,
              (pre ++ Log LInfo "Setting up standard development dependencies..." []
                   :: Spawn (setup_command e)
                   :: debug_lines
                        (stdout_of
                           (w (h ++ pre
                                 ++ [Log LInfo
                                       "Setting up standard development dependencies..."
                                       []])%list
                              (setup_command e))))%list))
  \/ (setup e = false /\ xorb (is_npm e) (is_yarn e) = true
      /\ exists pre,
          spawned pre = []
          /\ main e w h =
             (Returned tt,
              (pre ++ snd (update_loop e (base_verb e) w (h ++ pre))
                   ++ snd (audit_loop e w
                             (h ++ pre
                                ++ snd (update_loop e (base_verb e) w (h ++ pre)))))%list)).
Proof.
  destruct (is_npm e && is_yarn e) eqn:Eboth.
  { left. apply andb_prop in Eboth.
    split; [now left|]. apply main_fatal. now left. }
  destruct (setup e) eqn:Esetup.
  - right. left. split; [reflexivity|split; [reflexivity|]].
    assert (Hsel : exists cmd l, select_cmd e w h = (Returned cmd, l)
                                 /\ spawned l = []).
    { rewrite select_cmd_trace, Eboth, Esetup.
      destruct (is_npm e), (is_yarn e); cbn [negb];
        do 2 eexists; split; reflexivity. }
    destruct Hsel as (cmd & l & Hsel & Sl).
    set (note := Log LInfo "Setting up standard development dependencies..." []).
    exists (l ++ flat_map found_events (dependencies (config e)))%list. split.
    + rewrite spawned_app, Sl. cbn [app].
      destruct (quiet_report_found e w h) as (es & Hes & Ses).
      rewrite report_found_trace in Hes. now injection Hes as <-.
    + unfold main. rewrite Esetup.
      rewrite <- app_assoc.
      eapply (bind_then _ _ w h _ l _ _ Hsel).
      eapply (bind_then _ _ w _ _ _ _ _ (report_found_trace e w _)).
      unfold setup_tooling, setup_command.
      change (note :: ?x)%list with ([note] ++ x)%list.
      eapply (bind_then _ _ w _ tt [note]); [reflexivity|].
      rewrite <- !app_assoc.
      destruct (is_npm e).
      * unfold bind. rewrite run_trace. cbn [fst snd ret].
        now rewrite app_nil_r.
      * unfold bind. rewrite run_trace. cbn [fst snd ret].
        now rewrite app_nil_r.
  - destruct (xorb (is_npm e) (is_yarn e)) eqn:Eone.
    2:{ left.
        assert (Hnone : is_npm e = false /\ is_yarn e = false /\ setup e = false).
        { destruct (is_npm e), (is_yarn e); try discriminate; auto. }
        split; [now right|]. apply main_fatal. now right. }
    right. right. split; [reflexivity|split; [reflexivity|]].
    assert (Hsel : exists l, select_cmd e w h = (Returned (base_verb e), [l])
                             /\ spawned [l] = []).
    { rewrite select_cmd_trace. unfold base_verb.
      destruct (is_npm e), (is_yarn e); try discriminate; cbn [andb];
        eexists; split; reflexivity. }
    destruct Hsel as (l & Hsel & Sl).
    set (found := flat_map found_events (dependencies (config e))).
    set (note := Log LWarn
                   (if latest e
                    then "Set to update all dependencies to the latest version..."
                    else "Set to update all dependencies to latest version within the rules in package.json...")
                   []).
    set (pre := (l :: found ++ [note])%list).
    assert (Sfound : spawned found = []).
    { destruct (quiet_report_found e w h) as (es & Hes & Ses).
      rewrite report_found_trace in Hes. now injection Hes as <-. }
    exists pre. split.
    + change pre with ([l] ++ found ++ [note])%list.
      now rewrite !spawned_app, Sl, Sfound.
    + unfold main. rewrite Esetup.
      set (upd := snd (update_loop e (base_verb e) w (h ++ pre)%list)).
      replace (pre ++ upd ++ snd (audit_loop e w (h ++ pre ++ upd)))%list
        with ([l] ++ found ++ [note] ++ upd
                ++ snd (audit_loop e w (h ++ pre ++ upd)))%list
        by (unfold pre; cbn [app]; now rewrite <- !app_assoc).
      eapply (bind_then _ _ w h _ [l] _ _ Hsel).
      eapply (bind_then _ _ w _ _ found _ _ (report_found_trace e w _)).
      eapply (bind_then _ _ w _ tt [note]).
      * unfold note. now destruct (latest e).
      * eapply (bind_then _ _ w _ _ upd).
        -- replace (((h ++ [l]) ++ found) ++ [note])%list with (h ++ pre)%list.
           ++ apply update_loop_returns.
           ++ unfold pre. cbn [app]. now rewrite <- !app_assoc.
        -- replace ((((h ++ [l]) ++ found) ++ [note]) ++ upd)%list
             with (h ++ pre ++ upd)%list.
           ++ apply audit_loop_returns.
           ++ unfold pre. cbn [app]. now rewrite <- !app_assoc.
Qed.

(* ===================================================================== *)
(** ** The run as a whole *)
(* ===================================================================== *)


(** X2. In setup mode, unless both lockfiles are there, a run spawns one
    subprocess only, whatever the manifest declares: the install of the
    fourteen standard development packages, with npm when the npm lockfile
    is there and with yarn otherwise (also without any lockfile), each
    package followed by [@latest] when [latest] is set; it runs no update and
    no audit. *)
Theorem setup_mode_installs_standard_tooling (e : Env) (w : oracle) (h : list event) :
  setup e = true ->
  is_npm e && is_yarn e = false ->
  fst (main e w h) = Returned tt
  /\ spawned (snd (main e w h)) = [setup_command e]
  /\ arguments_of (setup_command e) =
     app (if is_npm e then ["npm"; "install"; "--save"; "--dev"]
          else ["yarn"; "add"; "--dev"])
         (if latest e
          then map (fun dep => dep ++ "@latest") standardDevDependencies
          else standardDevDependencies).
Proof.
  intros Hs Hb.
  destruct (main_trace_cases e w h)
    as [(Hfatal & _)|[(_ & _ & pre & Spre & ->)|(Hs' & _)]].
  - destruct Hfatal as [[Hn Hy]|(_ & _ & Hs')]; [|congruence].
    rewrite Hn, Hy in Hb. discriminate Hb.
  - cbn [fst snd]. repeat split.
    + rewrite spawned_app, Spre. cbn [app spawned].
      now rewrite spawned_debug_lines.
    + unfold setup_command. destruct (is_npm e), (latest e); vm_compute; reflexivity.
  - congruence.
Qed.

Lemma setup_mode_installs_standard_tooling_witness :
  setup setup_env = true
  /\ is_npm setup_env && is_yarn setup_env = false
  /\ spawned (snd (main setup_env failing [])) = [setup_command setup_env].
Proof.
  split; [reflexivity|split; [reflexivity|]].
  apply (setup_mode_installs_standard_tooling setup_env failing []); reflexivity.
Defined.

Lemma spawned_update_loop_length (e : Env) (cmd : string) w h :
  List.length (spawned (snd (update_loop e cmd w h))) <= 4.
Proof.
  destruct (update_loop_trace e cmd w h) as (es & -> & Ses).
  cbn [snd]. rewrite Ses, length_map.
  apply (Nat.le_trans _ _ _ (filter_length_le _ _)). reflexivity.
Qed.

(** X3. A run spawns at most eight subprocesses: at most four update
    commands and at most four commands of the audit loop. *)
Theorem at_most_eight_subprocesses (e : Env) (w : oracle) (h : list event) :
  List.length (spawned (snd (main e w h))) <= 8.
Proof.
  destruct (main_trace_cases e w h)
    as [(_ & msg & ->)|[(_ & _ & pre & Spre & ->)|(_ & _ & pre & Spre & ->)]];
    cbn [snd].
  - simpl. lia.
  - rewrite spawned_app, Spre. cbn [app spawned].
    rewrite spawned_debug_lines. simpl. lia.
  - rewrite !spawned_app, Spre, !length_app. cbn [List.length].
    pose proof (spawned_update_loop_length e (base_verb e) w (h ++ pre)%list).
    rewrite spawned_audit_loop.
    repeat destruct (check_for_vulnerabilities _); cbn [List.length]; lia.
Qed.

(* ===================================================================== *)
(** ** No subprocess starts unannounced *)
(* ===================================================================== *)

Lemma preceded_quiet (P : string -> event -> Prop) (tr : list event) :
  spawned tr = [] -> preceded_by P tr.
Proof.
  intros Hq pre c post ->. rewrite spawned_app in Hq. cbn in Hq.
  now destruct (spawned pre).
Qed.

Lemma preceded_app (P : string -> event -> Prop) (a b : list event) :
  preceded_by P a -> preceded_by P b -> preceded_by P (a ++ b)%list.
Proof.
  intros Ha Hb pre c post Heq.
  destruct (split_at_spawn _ _ _ _ _ Heq) as [(mid & Hmid & _)|(pre' & -> & Hb')].
  - exact (Ha _ _ _ Hmid).
  - destruct (Hb _ _ _ Hb') as (p & l & -> & Hl).
    exists (a ++ p)%list, l. split; auto. now rewrite app_assoc.
Qed.

Lemma preceded_pair (P : string -> event -> Prop) lvl fmt args (c : string)
      (rest : list event) :
  P c (Log lvl fmt args) -> spawned rest = [] ->
  preceded_by P (Log lvl fmt args :: Spawn c :: rest).
Proof.
  intros HP Hrest pre c' post Heq.
  destruct pre as [|x pre]; [discriminate Heq|].
  injection Heq as <- Heq.
  destruct pre as [|y pre].
  - injection Heq as <- _. now exists [], (Log lvl fmt args).
  - injection Heq as _ Heq. subst rest.
    rewrite spawned_app in Hrest. cbn in Hrest.
    now destruct (spawned pre).
Qed.

Lemma preceded_update_loop (e : Env) (cmd : string) w h :
  preceded_by (announces e) (snd (update_loop e cmd w h)).
Proof.
  unfold update_loop. generalize (dependencies (config e)) as l. intros l.
  revert h. induction l as [|c l IH]; intros h.
  - now apply preceded_quiet.
  - rewrite update_over_step. cbn [snd].
    apply preceded_app; [|apply IH].
    unfold update_events. destruct (has_items c).
    + apply preceded_pair; [now left|apply spawned_debug_lines].
    + now apply preceded_quiet.
Qed.

Lemma preceded_audit_attempt (e : Env) (i : nat) w h :
  preceded_by (announces e) (snd (audit_attempt e i w h)).
Proof.
  assert (Ha : preceded_by (announces e) (audit_events e i w h)).
  { apply preceded_pair.
    - right. left. split; [reflexivity|]. now exists (show_nat (i + 1)).
    - now rewrite spawned_app, spawned_debug_lines, spawned_error_lines. }
  rewrite audit_attempt_trace.
  destruct (check_for_vulnerabilities _); cbn [snd]; [|exact Ha].
  apply preceded_app; [exact Ha|].
  apply preceded_pair.
  - right. right. left. now split.
  - now rewrite spawned_app, spawned_debug_lines, spawned_error_lines.
Qed.

Lemma preceded_audit_loop (e : Env) w h :
  preceded_by (announces e) (snd (audit_loop e w h)).
Proof.
  rewrite audit_loop_trace. cbn [snd].
  apply preceded_app; [apply preceded_audit_attempt|].
  destruct (check_for_vulnerabilities _).
  - apply preceded_audit_attempt.
  - now apply preceded_quiet.
Qed.

(** X4. In every run, each subprocess is spawned right after a log line
    that announces it: an update command right after its own command line
    logged at warn level, an audit right after the attempt line, an audit fix
    right after the fix line, the setup install right after the setup
    line. *)
Theorem every_subprocess_is_announced
        (e : Env) (w : oracle) (h pre : list event) (c : string) (post : list event) :
  snd (main e w h) = (pre ++ Spawn c :: post)%list ->
  exists pre' l, pre = (pre' ++ [l])%list /\ announces e c l.
Proof.
  revert pre c post. change (preceded_by (announces e) (snd (main e w h))).
  destruct (main_trace_cases e w h)
    as [(_ & msg & ->)|[(_ & _ & p & Sp & ->)|(_ & _ & p & Sp & ->)]];
    cbn [snd].
  - now apply preceded_quiet.
  - apply preceded_app; [now apply preceded_quiet|].
    apply preceded_pair; [|apply spawned_debug_lines].
    right. right. right. now split.
  - apply preceded_app; [now apply preceded_quiet|].
    apply preceded_app; [apply preceded_update_loop|apply preceded_audit_loop].
Qed.

Lemma every_subprocess_is_announced_witness :
  exists pre' l,
    [Log LWarn "Yarn detected..." [];
     Log LInfo "Found %s" ["peer dependencies"];
     Log LInfo item_format ["x"];
     Log LWarn "Set to update all dependencies to the latest version..." [];
     Log LWarn "yarn add --peer x@latest" []] = (pre' ++ [l])%list
    /\ announces (mkEnv true false true false peer_only "/x/")
                 "yarn add --peer x@latest" l.
Proof.
  apply (every_subprocess_is_announced
           (mkEnv true false true false peer_only "/x/")
           (always "0 vulnerabilities found") []
           _ "yarn add --peer x@latest"
           [Log LDebug "0 vulnerabilities found" [];
            Log LWarn "Running audit checks... attempt #%s" ["1"];
            Spawn "yarn audit";
            Log LDebug "0 vulnerabilities found" []]).
  reflexivity.
Defined.

(* ===================================================================== *)
(** ** What the runner logs *)
(* ===================================================================== *)

Lemma split_not_nil (sep : ascii) (s : string) : JS.split sep s <> [].
Proof.
  destruct s as [|c s]; cbn [JS.split]; [discriminate|].
  destruct (Ascii.eqb c sep); [discriminate|].
  destruct (JS.split sep s); discriminate.
Qed.

Lemma join_split (sep : ascii) (s : string) :
  JS.join (String sep "") (JS.split sep s) = s.
Proof.
  induction s as [|c s IH]; [reflexivity|].
  cbn [JS.split]. destruct (Ascii.eqb c sep) eqn:Ec.
  - apply Ascii.eqb_eq in Ec. subst c.
    pose proof (split_not_nil sep s) as Hne.
    destruct (JS.split sep s) as [|piece pieces]; [congruence|].
    change (JS.join (String sep "") ("" :: piece :: pieces))
      with (String sep (JS.join (String sep "") (piece :: pieces))).
    now rewrite IH.
  - pose proof (split_not_nil sep s) as Hne.
    destruct (JS.split sep s) as [|piece pieces]; [congruence|].
    destruct pieces as [|p2 pieces].
    + cbn [JS.join] in *. now rewrite IH.
    + change (JS.join (String sep "") (String c piece :: p2 :: pieces))
        with (String c (JS.join (String sep "") (piece :: p2 :: pieces))).
      now rewrite IH.
Qed.

(** X5. The debug lines [run] writes are the lines of stdout, in order
    and without loss: joined again with line feeds they give stdout back,
    and the same holds for [runPrintErrors]. *)
Theorem debug_log_reproduces_stdout (cmd : string) (w : oracle) (h : list event) :
  logged LDebug (snd (run cmd w h)) = JS.split LF (stdout_of (w h cmd))
  /\ JS.join (String LF "") (logged LDebug (snd (run cmd w h)))
     = stdout_of (w h cmd)
  /\ JS.join (String LF "") (logged LDebug (snd (runPrintErrors cmd w h)))
     = stdout_of (w h cmd).
Proof.
  assert (Hd : logged LDebug (debug_lines (stdout_of (w h cmd)))
               = JS.split LF (stdout_of (w h cmd))).
  { unfold debug_lines.
    rewrite (logged_logs LDebug LDebug (fun line => line) (fun _ => [])).
    cbn [level_eqb]. apply map_id. }
  assert (He : logged LDebug (error_lines (w h cmd)) = []).
  { unfold error_lines. destruct (_ || _); [|reflexivity].
    now rewrite (logged_logs LDebug LError (fun line => JS.trim line) (fun _ => [])). }
  rewrite run_trace, runPrintErrors_trace. cbn [snd logged].
  rewrite logged_app, He, app_nil_r, Hd, join_split. auto.
Qed.

Lemma logged_error_runPrintErrors (cmd : string) w h :
  logged LError (snd (runPrintErrors cmd w h)) =
  if truthy (error_of (w h cmd)) || negb (String.length (stderr_of (w h cmd)) =? 0)%nat
  then map JS.trim (non_blank_lines (stderr_of (w h cmd)))
  else [].
Proof.
  rewrite runPrintErrors_trace. cbn [snd logged].
  rewrite logged_app. unfold debug_lines, error_lines.
  rewrite (logged_logs LError LDebug (fun line => line) (fun _ => [])).
  cbn [level_eqb app].
  destruct (truthy _ || _); [|reflexivity].
  rewrite (logged_logs LError LError (fun line => JS.trim line) (fun _ => [])).
  cbn [level_eqb]. unfold non_blank_lines. f_equal.
  apply filter_ext. intros line. now rewrite trim_blank.
Qed.

Lemma trimStart_first (s : string) :
  is_blank s = false ->
  exists c r, JS.trimStart s = String c r /\ JS.is_space c = false.
Proof.
  induction s as [|c s IH]; [discriminate|].
  cbn [is_blank JS.trimStart]. destruct (JS.is_space c) eqn:Ec; cbn [andb].
  - exact IH.
  - intros _. now exists c, s.
Qed.

Lemma last_char_none (s : string) : last_char s = None -> s = "".
Proof.
  destruct s as [|c s]; [reflexivity|].
  cbn [last_char]. now destruct (last_char s).
Qed.

Lemma last_char_trimEnd (s : string) :
  match last_char (JS.trimEnd s) with
  | Some d => JS.is_space d = false
  | None => True
  end.
Proof.
  induction s as [|c s IH]; [exact I|].
  cbn [JS.trimEnd].
  destruct (JS.is_space c && JS.is_empty (JS.trimEnd s)) eqn:E; [exact I|].
  cbn [last_char].
  destruct (last_char (JS.trimEnd s)) as [d|] eqn:El; [exact IH|].
  apply last_char_none in El. rewrite El in E. cbn in E.
  now rewrite andb_true_r in E.
Qed.

Lemma trim_is_trimmed (s : string) :
  is_blank s = false -> is_trimmed (JS.trim s) = true.
Proof.
  intros Hs. unfold JS.trim.
  destruct (trimStart_first s Hs) as (c & r & -> & Hc).
  pose proof (last_char_trimEnd (String c r)) as Hl.
  cbn [JS.trimEnd] in *. rewrite Hc in *. cbn [andb] in *.
  unfold is_trimmed. cbn [first_char]. rewrite Hc. cbn [negb andb].
  destruct (last_char (String c (JS.trimEnd r))) as [d|] eqn:El.
  - now rewrite Hl.
  - apply last_char_none in El. discriminate El.
Qed.

(** X6. Every line [runPrintErrors] logs at error level is non-empty and
    neither starts nor ends with white space. *)
Theorem error_lines_are_trimmed (cmd : string) (w : oracle) (h : list event) :
  Forall (fun line => is_trimmed line = true)
         (logged LError (snd (runPrintErrors cmd w h))).
Proof.
  rewrite logged_error_runPrintErrors.
  destruct (truthy _ || _); [|constructor].
  apply Forall_forall. intros line Hin.
  apply in_map_iff in Hin as (raw & <- & Hraw).
  unfold non_blank_lines in Hraw. apply filter_In in Hraw as [_ Hnb].
  apply trim_is_trimmed. now apply negb_true_iff in Hnb.
Qed.

Lemma split_blank (s : string) :
  is_blank s = true -> forallb is_blank (JS.split LF s) = true.
Proof.
  induction s as [|c s IH]; [reflexivity|].
  cbn [is_blank JS.split]. intros H. apply andb_prop in H as [Hc Hs].
  specialize (IH Hs).
  destruct (Ascii.eqb c LF); [exact IH|].
  destruct (JS.split LF s) as [|piece pieces]; cbn [forallb is_blank] in *.
  - now rewrite Hc.
  - apply andb_prop in IH as [Hp Hps]. now rewrite Hc, Hp, Hps.
Qed.

Lemma filter_none {A} (f : A -> bool) (l : list A) :
  (forall x, In x l -> f x = false) -> filter f l = [].
Proof.
  induction l as [|x l IH]; intros H; [reflexivity|].
  cbn [filter]. rewrite (H x (or_introl eq_refl)).
  apply IH. intros y Hy. apply H. now right.
Qed.

(** X7. When stderr is empty or made of white space only, [runPrintErrors]
    logs nothing at error level, also when the subprocess failed: the error
    itself is never logged, only lines of stderr are. *)
Theorem blank_stderr_logs_no_error (cmd : string) (w : oracle) (h : list event) :
  is_blank (stderr_of (w h cmd)) = true ->
  logged LError (snd (runPrintErrors cmd w h)) = [].
Proof.
  intros Hb. rewrite logged_error_runPrintErrors.
  destruct (truthy _ || _); [|reflexivity].
  unfold non_blank_lines.
  pose proof (split_blank _ Hb) as Hall. rewrite forallb_forall in Hall.
  rewrite filter_none; [reflexivity|].
  intros x Hx. now rewrite (Hall x Hx).
Qed.

Lemma blank_stderr_logs_no_error_witness :
  is_blank (stderr_of (failing [] "npm audit")) = true
  /\ error_of (failing [] "npm audit") = Some "spawn failed"
  /\ logged LError (snd (runPrintErrors "npm audit" failing [])) = [].
Proof.
  split; [reflexivity|split; [reflexivity|]].
  apply (blank_stderr_logs_no_error "npm audit" failing []). reflexivity.
Defined.

(* ===================================================================== *)
(** ** The vulnerability check without arithmetic *)
(* ===================================================================== *)

Lemma decimal_from_zero (acc : Z) (digits : string) :
  all_digits digits = true -> (0 <= acc)%Z ->
  (decimal_from acc digits =? 0)%Z = (acc =? 0)%Z && negb (has_nonzero digits).
Proof.
  revert acc. induction digits as [|c rest IH]; intros acc Hall Hacc.
  - cbn. now rewrite andb_true_r.
  - cbn [all_digits] in Hall. apply andb_prop in Hall as [Hc Hrest].
    apply digit_cases in Hc. cbn [decimal_from has_nonzero].
    repeat (destruct Hc as [<-|Hc];
            [rewrite (IH _ Hrest) by (simpl; lia); cbn [Ascii.eqb negb orb];
             simpl (Z.of_nat _ - 48)%Z;
             destruct (Z.eqb_spec acc 0);
             match goal with
             | |- context [(?x =? 0)%Z] => destruct (Z.eqb_spec x 0)
             end; cbn; try reflexivity; try lia|]).
    destruct Hc.
Qed.

(** X8. The vulnerability check answers true exactly when the leading
    run of digits of the output holds a digit other than zero: leading
    zeros do not hide a count, a run of zeros is no vulnerability, and the
    magnitude of the number plays no role. *)
Theorem check_is_nonzero_digit (stdout : string) :
  check_for_vulnerabilities stdout = has_nonzero (leading_digits stdout).
Proof.
  rewrite check_is_nonzero_count. unfold leading_count.
  rewrite (decimal_from_zero 0 _ (all_digits_leading stdout)) by lia.
  cbn. now rewrite negb_involutive.
Qed.

Example check_leading_zeros :
  check_for_vulnerabilities "007 vulnerabilities" = true
  /\ check_for_vulnerabilities "000 vulnerabilities, 12 packages" = false.
Proof. split; reflexivity. Qed.

(* ===================================================================== *)
(** ** The listing of the manifest *)
(* ===================================================================== *)

Lemma logged_args_app lvl fmt (a b : list event) :
  logged_args lvl fmt (a ++ b) =
  (logged_args lvl fmt a ++ logged_args lvl fmt b)%list.
Proof.
  induction a as [|[cmd|l f args] a IH]; cbn [app logged_args]; auto.
  destruct (level_eqb l lvl && String.eqb f fmt); cbn [app]; now rewrite IH.
Qed.

Lemma logged_args_items (l : list string) :
  logged_args LInfo item_format
    (map (fun dependency => Log LInfo item_format [dependency]) l)
  = map (fun dependency => [dependency]) l.
Proof.
  induction l as [|d l IH]; [reflexivity|].
  cbn [map logged_args level_eqb andb].
  rewrite String.eqb_refl. now rewrite IH.
Qed.

Lemma logged_args_items_found (l : list string) :
  logged_args LInfo "Found %s"
    (map (fun dependency => Log LInfo item_format [dependency]) l) = [].
Proof. induction l as [|d l IH]; [reflexivity|exact IH]. Qed.

Lemma concat_singletons {A} (l : list A) : concat (map (fun x => [x]) l) = l.
Proof. induction l as [|x l IH]; cbn; congruence. Qed.

Lemma found_events_items (c : Category) :
  concat (logged_args LInfo item_format (found_events c)) = items c.
Proof.
  unfold found_events, has_items.
  destruct (items c) as [|d l] eqn:E; [reflexivity|].
  cbn [List.length Nat.eqb negb]. cbn [logged_args level_eqb andb].
  change (String.eqb "Found %s" item_format) with false. cbv iota.
  rewrite logged_args_items. apply concat_singletons.
Qed.

Lemma found_events_header (c : Category) :
  logged_args LInfo "Found %s" (found_events c) =
  if has_items c then [[name c]] else [].
Proof.
  unfold found_events. destruct (has_items c); [|reflexivity].
  cbn [logged_args level_eqb andb]. rewrite String.eqb_refl.
  now rewrite logged_args_items_found.
Qed.

(** X9. The listing names every key of the four sub-mappings of the
    manifest once, in the order runtime, development, peer, optional and in
    the order of the keys; it writes one header per category that has items
    and none for the others; it spawns nothing. *)
Theorem listing_names_every_dependency (e : Env) (w : oracle) (h : list event) :
  concat (logged_args LInfo item_format (snd (report_found e w h))) =
    (keys_or_empty (cfg_dependencies (config e))
     ++ keys_or_empty (cfg_devDependencies (config e))
     ++ keys_or_empty (cfg_peerDependencies (config e))
     ++ keys_or_empty (cfg_optionalDependencies (config e)))%list
  /\ concat (logged_args LInfo "Found %s" (snd (report_found e w h))) =
     map name (filter has_items (dependencies (config e)))
  /\ spawned (snd (report_found e w h)) = []
  /\ fst (report_found e w h) = Returned tt.
Proof.
  rewrite report_found_trace. cbn [fst snd].
  assert (Hitems : forall l,
             concat (logged_args LInfo item_format (flat_map found_events l))
             = concat (map items l)).
  { induction l as [|c l IH]; [reflexivity|].
    cbn [flat_map map concat].
    now rewrite logged_args_app, concat_app, found_events_items, IH. }
  assert (Hhead : forall l,
             concat (logged_args LInfo "Found %s" (flat_map found_events l))
             = map name (filter has_items l)).
  { induction l as [|c l IH]; [reflexivity|].
    cbn [flat_map filter].
    rewrite logged_args_app, concat_app, found_events_header, IH.
    now destruct (has_items c). }
  assert (Hquiet : forall l, spawned (flat_map found_events l) = []).
  { induction l as [|c l IH]; [reflexivity|].
    cbn [flat_map]. rewrite spawned_app, IH, app_nil_r.
    unfold found_events. destruct (has_items c); [|reflexivity].
    cbn [spawned].
    apply (spawned_logs LInfo (fun _ => item_format) (fun d => [d])). }
  repeat split; auto.
  rewrite Hitems. cbn. now rewrite app_nil_r.
Qed.

(* ===================================================================== *)
(** ** Reading the arguments of the process *)
(* ===================================================================== *)

Lemma toLowerChar_space (c : ascii) :
  JS.is_space c = true -> JS.toLowerChar c = c.
Proof.
  destruct c as [[] [] [] [] [] [] [] []]; intros H;
    try discriminate H; reflexivity.
Qed.

Lemma toLowerChar_idem (c : ascii) :
  JS.toLowerChar (JS.toLowerChar c) = JS.toLowerChar c.
Proof. destruct c as [[] [] [] [] [] [] [] []]; reflexivity. Qed.

Lemma toLowerCase_idem (s : string) :
  JS.toLowerCase (JS.toLowerCase s) = JS.toLowerCase s.
Proof.
  induction s as [|c s IH]; [reflexivity|].
  cbn [JS.toLowerCase]. now rewrite toLowerChar_idem, IH.
Qed.

Lemma toLowerCase_app (a b : string) :
  JS.toLowerCase (a ++ b) = JS.toLowerCase a ++ JS.toLowerCase b.
Proof.
  induction a as [|c a IH]; [reflexivity|].
  cbn [append JS.toLowerCase]. now rewrite IH.
Qed.

Lemma toLowerCase_blank (s : string) :
  is_blank s = true -> JS.toLowerCase s = s.
Proof.
  induction s as [|c s IH]; [reflexivity|].
  cbn [is_blank JS.toLowerCase]. intros H. apply andb_prop in H as [Hc Hs].
  now rewrite (toLowerChar_space c Hc), (IH Hs).
Qed.

Lemma trimStart_skip (ws s : string) :
  is_blank ws = true -> JS.trimStart (ws ++ s) = JS.trimStart s.
Proof.
  induction ws as [|c ws IH]; [reflexivity|].
  cbn [is_blank append JS.trimStart]. intros H. apply andb_prop in H as [Hc Hws].
  rewrite Hc. auto.
Qed.

Lemma trimStart_blank (ws : string) :
  is_blank ws = true -> JS.trimStart ws = "".
Proof.
  intros H. rewrite <- (append_empty_r ws). now rewrite trimStart_skip.
Qed.

Lemma trimStart_keep (s ws : string) :
  is_blank s = false -> JS.trimStart (s ++ ws) = JS.trimStart s ++ ws.
Proof.
  induction s as [|c s IH]; [discriminate|].
  cbn [is_blank append JS.trimStart].
  destruct (JS.is_space c); cbn [andb]; auto.
Qed.

Lemma trimEnd_blank (ws : string) :
  is_blank ws = true -> JS.trimEnd ws = "".
Proof.
  induction ws as [|c ws IH]; [reflexivity|].
  cbn [is_blank JS.trimEnd]. intros H. apply andb_prop in H as [Hc Hws].
  now rewrite (IH Hws), Hc.
Qed.

Lemma trimEnd_drop (s ws : string) :
  is_blank ws = true -> JS.trimEnd (s ++ ws) = JS.trimEnd s.
Proof.
  intros Hws. induction s as [|c s IH].
  - now apply trimEnd_blank.
  - cbn [append JS.trimEnd]. now rewrite IH.
Qed.

Lemma is_blank_app (a b : string) :
  is_blank (a ++ b) = is_blank a && is_blank b.
Proof.
  induction a as [|c a IH]; [reflexivity|].
  cbn [append is_blank]. now rewrite IH, andb_assoc.
Qed.

Lemma trim_padding (ws1 s ws2 : string) :
  is_blank ws1 = true -> is_blank ws2 = true ->
  JS.trim (ws1 ++ s ++ ws2) = JS.trim s.
Proof.
  intros H1 H2. unfold JS.trim. rewrite (trimStart_skip _ _ H1).
  destruct (is_blank s) eqn:Es.
  - rewrite (trimStart_blank s Es), trimStart_blank; [reflexivity|].
    now rewrite is_blank_app, Es, H2.
  - now rewrite (trimStart_keep _ _ Es), (trimEnd_drop _ _ H2).
Qed.

Lemma arg_given_normal (argv argv' : list string) (word : string) :
  map (fun e => JS.trim (JS.toLowerCase e)) argv
    = map (fun e => JS.trim (JS.toLowerCase e)) argv' ->
  arg_given argv word = arg_given argv' word.
Proof. unfold arg_given. now intros ->. Qed.

(** X10. White space around the arguments of the process, and their being
    written in lower case already or not, change nothing to what the program
    reads from them: the run starts in the same environment. *)
Theorem arguments_read_modulo_padding_and_case
        (yarn_lock package_lock : bool) (argv : list string)
        (manifest : Config) (bin ws1 ws2 : string) :
  is_blank ws1 = true ->
  is_blank ws2 = true ->
  start yarn_lock package_lock (map (fun a => ws1 ++ a ++ ws2) argv) manifest bin
    = start yarn_lock package_lock argv manifest bin
  /\ start yarn_lock package_lock (map JS.toLowerCase argv) manifest bin
     = start yarn_lock package_lock argv manifest bin.
Proof.
  intros H1 H2.
  assert (Hpad : map (fun e => JS.trim (JS.toLowerCase e))
                     (map (fun a => ws1 ++ a ++ ws2) argv)
                 = map (fun e => JS.trim (JS.toLowerCase e)) argv).
  { rewrite map_map. apply map_ext. intros a.
    rewrite !toLowerCase_app, (toLowerCase_blank _ H1), (toLowerCase_blank _ H2).
    now apply trim_padding. }
  assert (Hlow : map (fun e => JS.trim (JS.toLowerCase e))
                     (map JS.toLowerCase argv)
                 = map (fun e => JS.trim (JS.toLowerCase e)) argv).
  { rewrite map_map. apply map_ext. intros a. now rewrite toLowerCase_idem. }
  unfold start.
  now rewrite !(arg_given_normal _ _ _ Hpad), !(arg_given_normal _ _ _ Hlow).
Qed.

Lemma arguments_read_modulo_padding_and_case_witness :
  is_blank (String TAB " ") = true
  /\ is_blank " " = true
  /\ start true false
           (map (fun a => String TAB " " ++ a ++ " ") ["node"; "depupdate"; "LATEST"])
           peer_only "/x/"
     = start true false ["node"; "depupdate"; "LATEST"] peer_only "/x/".
Proof.
  split; [reflexivity|split; [reflexivity|]].
  apply (arguments_read_modulo_padding_and_case
           true false ["node"; "depupdate"; "LATEST"] peer_only "/x/"
           (String TAB " ") " "); reflexivity.
Defined.

Example start_mixed_case :
  latest (start true false ["node"; "depupdate"; " Latest "; "SETUP"] peer_only "/x/")
    = true
  /\ setup (start true false ["node"; "depupdate"; " Latest "; "SETUP"] peer_only "/x/")
    = true
  /\ latest (start true false ["node"; "depupdate"; "--latest"] peer_only "/x/")
    = false.
Proof. repeat split; reflexivity. Qed.

(* ===================================================================== *)
(** ** The arguments of an update command *)
(* ===================================================================== *)

Lemma split_app_space (a b : string) :
  JS.split SP (a ++ String SP b) = (JS.split SP a ++ JS.split SP b)%list.
Proof.
  induction a as [|c a IH]; [reflexivity|].
  cbn [append JS.split]. rewrite IH.
  destruct (Ascii.eqb c SP); [reflexivity|].
  pose proof (split_not_nil SP a) as Hne.
  destruct (JS.split SP a) as [|piece pieces]; [congruence|reflexivity].
Qed.

Lemma arguments_of_app (a b : string) :
  arguments_of (a ++ " " ++ b) = (arguments_of a ++ arguments_of b)%list.
Proof.
  unfold arguments_of.
  change (a ++ " " ++ b) with (a ++ String SP b).
  now rewrite split_app_space, filter_app.
Qed.

(** X11. For each of the four categories, when its items are package
    names, the arguments of its update command are: the words of the base
    verb, then the flag of the category for the manager in use when it has
    one, then the package names in order, each followed by [@latest] when
    [latest] is set.  A category without a flag leaves two spaces in the
    command line but no empty argument. *)
Theorem update_command_arguments (e : Env) (c : Category) :
  In c (dependencies (config e)) ->
  forallb is_package_name (items c) = true ->
  arguments_of (command_line e (base_verb e) c) =
  app (if is_npm e then ["npm"; "install"]
       else if latest e then ["yarn"; "add"] else ["yarn"; "upgrade"])
      (app (match (if is_yarn e then flags_yarn c else flags_npm c) with
            | Some flag => [flag]
            | None => []
            end)
           (if latest e then map (fun dep => dep ++ "@latest") (items c)
            else items c)).
Proof.
  intros Hin Hnames.
  assert (Hdeps : arguments_of (format_dep (items c) (latest e)) =
                  if latest e then map (fun dep => dep ++ "@latest") (items c)
                  else items c).
  { unfold format_dep. destruct (latest e).
    - apply arguments_of_join. rewrite forallb_forall in *. intros x Hx.
      apply in_map_iff in Hx as (d & <- & Hd). apply package_name_latest. auto.
    - now apply arguments_of_join. }
  unfold command_line. rewrite !arguments_of_app, Hdeps.
  f_equal.
  - unfold base_verb. destruct (is_npm e); [reflexivity|].
    now destruct (latest e).
  - f_equal. cbn in Hin.
    destruct Hin as [<-|[<-|[<-|[<-|[]]]]]; destruct (is_yarn e); reflexivity.
Qed.

Lemma update_command_arguments_witness :
  arguments_of "npm install  p q" = ["npm"; "install"; "p"; "q"].
Proof.
  apply (update_command_arguments npm_env
           (mkCategory "peer dependencies" ["p"; "q"]
                       (Some (mkFlags (Some "--peer") None)))).
  - cbn. tauto.
  - reflexivity.
Defined.

(* ===================================================================== *)
(** ** The attempts of the audit loop and the manager they use *)
(* ===================================================================== *)

Lemma logged_args_logs {A} lvl fmt lvl' (f : A -> string) (g : A -> list string)
      (l : list A) :
  level_eqb lvl' lvl = false ->
  logged_args lvl fmt (map (fun x => Log lvl' (f x) (g x)) l) = [].
Proof.
  intros Hl. induction l as [|x l IH]; [reflexivity|].
  cbn [map logged_args]. now rewrite Hl.
Qed.

Lemma logged_args_debug_lines lvl fmt out :
  level_eqb LDebug lvl = false -> logged_args lvl fmt (debug_lines out) = [].
Proof. apply logged_args_logs. Qed.

Lemma logged_args_error_lines lvl fmt r :
  level_eqb LError lvl = false -> logged_args lvl fmt (error_lines r) = [].
Proof.
  intros Hl. unfold error_lines. destruct (_ || _); [|reflexivity].
  now apply (logged_args_logs lvl fmt LError (fun line => JS.trim line) (fun _ => [])).
Qed.

Lemma attempt_line_of_attempt (e : Env) (i : nat) w h :
  logged_args LWarn "Running audit checks... attempt #%s"
              (snd (audit_attempt e i w h)) = [[show_nat (i + 1)]].
Proof.
  rewrite audit_attempt_trace.
  destruct (check_for_vulnerabilities _); cbn [snd];
    unfold audit_events, fix_events; cbn [app logged_args level_eqb andb];
    rewrite ?String.eqb_refl; cbn [String.eqb Ascii.eqb Bool.eqb andb];
    rewrite !logged_args_app; cbn [logged_args level_eqb andb];
    rewrite ?logged_args_app;
    rewrite ?logged_args_debug_lines, ?logged_args_error_lines by reflexivity;
    reflexivity.
Qed.

(** X12. The audit attempts are announced with their numbers, starting at
    1: attempt 1 always, attempt 2 exactly when the first audit reported a
    nonzero count. *)
Theorem attempts_are_numbered (e : Env) (w : oracle) (h : list event) :
  logged_args LWarn "Running audit checks... attempt #%s" (snd (audit_loop e w h))
  = if check_for_vulnerabilities (stdout_of (audit_answer e 0 w h))
    then [["1"]; ["2"]] else [["1"]].
Proof.
  rewrite audit_loop_trace. cbn [snd].
  rewrite logged_args_app, attempt_line_of_attempt.
  destruct (check_for_vulnerabilities _).
  - now rewrite attempt_line_of_attempt.
  - reflexivity.
Qed.

(** X13. The subprocesses of a run all belong to one package manager: with
    the npm lockfile every command line starts with [npm ]; without it every
    command line starts with [yarn ] or is the path of the [yarn-audit-fix]
    tool. *)
Theorem spawns_use_one_manager (e : Env) (w : oracle) (h : list event) (c : string) :
  In c (spawned (snd (main e w h))) ->
  if is_npm e then String.prefix "npm " c = true
  else String.prefix "yarn " c = true \/ c = bin_dir e ++ "yarn-audit-fix".
Proof.
  intros Hin.
  destruct (main_trace_cases e w h)
    as [(_ & msg & Hm)|[(_ & _ & pre & Spre & Hm)|(_ & Hone & pre & Spre & Hm)]];
    rewrite Hm in Hin; cbn [snd] in Hin.
  - destruct Hin.
  - rewrite spawned_app, Spre in Hin. cbn [app spawned] in Hin.
    rewrite spawned_debug_lines in Hin. destruct Hin as [<-|[]].
    unfold setup_command. destruct (is_npm e); [reflexivity|now left].
  - rewrite !spawned_app, Spre in Hin. cbn [app] in Hin.
    apply in_app_or in Hin as [Hupd|Haud].
    + destruct (update_loop_trace e (base_verb e) w (h ++ pre)%list)
        as (es & Hes & Ses).
      rewrite Hes in Hupd. cbn [snd] in Hupd. rewrite Ses in Hupd.
      apply in_map_iff in Hupd as (cat & <- & _).
      unfold command_line, base_verb.
      destruct (is_npm e); [reflexivity|].
      left. now destruct (latest e).
    + rewrite spawned_audit_loop in Haud.
      assert (Hcmd : c = audit_cmd e \/ c = fix_cmd e).
      { repeat destruct (check_for_vulnerabilities _); cbn [In] in Haud;
          intuition (subst; auto). }
      unfold audit_cmd, fix_cmd in Hcmd.
      destruct (is_npm e); destruct Hcmd as [->| ->]; auto.
Qed.

Lemma spawns_use_one_manager_witness :
  String.prefix "npm " "npm audit fix" = true.
Proof.
  apply (spawns_use_one_manager npm_env (always "3 vulnerabilities found") []
                                "npm audit fix").
  do 3 right. left. reflexivity.
Defined.
